(** * Shallow embedding of the movie-ratings web form and of the iris script

    Two Python scripts are modelled:

    - [src/VS CODE/mini project.py]: a Flask application that loads a CSV of
      movie records, cleans it, computes grouped averages and serves them;
    - [src/flower ide/iris-classifier.py]: a script that fits a 3-nearest
      neighbours classifier on a split of the iris data and prints its
      accuracy.

    Conventions.  A float64 is idealised as an exact rational in canonical
    form ([Qc]); IEEE rounding is outside the model, NaN is a value of its
    own.  Library calls (pandas, seaborn, Flask, scikit-learn) are modelled
    by their documented behaviour on the inputs the scripts give them.

    Part I holds the definitions, Part II the theorems on the documented
    behaviour, Part III further properties of the code. *)

From Stdlib Require Import Bool Arith ZArith QArith Qcanon Qround.
From Stdlib Require Import Ascii String List Lia Lqa Permutation Sorted.
From Stdlib Require Import DecimalString DecimalN.
Import ListNotations.

#[local] Set Warnings "-register-all".

Local Open Scope string_scope.
Local Open Scope list_scope.

(** * Part I: definitions *)

(** ** Generic list machinery *)

Section Sorting.
Context {A : Type}.
Variable leb : A -> A -> bool.

(** Stable insertion sort, ascending for [leb]. *)
Fixpoint insert_sorted (x : A) (l : list A) : list A :=
  match l with
  | [] => [x]
  | h :: t => if leb x h then x :: l else h :: insert_sorted x t
  end.

Fixpoint isort (l : list A) : list A :=
  match l with
  | [] => []
  | x :: t => insert_sorted x (isort t)
  end.
End Sorting.

Section Lookup.
Context {K : Type}.
Variable eqb : K -> K -> bool.

(** Python's [dict.get] / first match in an association list. *)
Fixpoint assoc {V : Type} (k : K) (l : list (K * V)) : option V :=
  match l with
  | [] => None
  | (k', v) :: t => if eqb k k' then Some v else assoc k t
  end.

(** Position of the first occurrence. *)
Fixpoint index_of (k : K) (l : list K) : option nat :=
  match l with
  | [] => None
  | h :: t => if eqb k h then Some 0%nat else option_map S (index_of k t)
  end.

(** Values in order of first appearance, without repeats. *)
Fixpoint dedup (l : list K) : list K :=
  match l with
  | [] => []
  | k :: t => k :: filter (fun k' => negb (eqb k k')) (dedup t)
  end.
End Lookup.

(** In-place update of one slot of an array; nothing out of range. *)
Fixpoint update_nth {A : Type} (i : nat) (f : A -> A) (l : list A) : list A :=
  match l, i with
  | [], _ => []
  | h :: t, O => f h :: t
  | h :: t, S j => h :: update_nth j f t
  end.

(** ** Numbers *)

Definition Qc_eqb (x y : Qc) : bool := Qeq_bool x y.
Definition Qc_leb (x y : Qc) : bool := Qle_bool x y.
Definition Qc_of_Z (z : Z) : Qc := Q2Qc (inject_Z z).
Definition Qc_of_nat (n : nat) : Qc := Qc_of_Z (Z.of_nat n).
Definition Qc_sum (l : list Qc) : Qc := fold_right Qcplus (Q2Qc 0) l.

(** Nearest integer, ties to the even one (Python's [round] and [%.2f]). *)
Definition round_half_even (x : Qc) : Z :=
  let f := Qfloor x in
  match Qcompare (x - inject_Z f) (1 # 2) with
  | Lt => f
  | Gt => (f + 1)%Z
  | Eq => if Z.even f then f else (f + 1)%Z
  end.

(** [round(x, 2)] *)
Definition round2 (x : Qc) : Qc :=
  Q2Qc (inject_Z (round_half_even (x * Q2Qc 100)) / 100).

(** ** Cells, rows and data frames *)

(** A cell of a data frame as [pd.read_csv] produces it: a missing value, a
    number (numeric column) or a string (object column). *)
Inductive cell : Type :=
| NaN
| Num (x : Qc)
| Str (s : string).

Definition isna (c : cell) : bool :=
  match c with NaN => true | _ => false end.

Definition notna (c : cell) : bool := negb (isna c).

Definition is_str (c : cell) : bool :=
  match c with Str _ => true | _ => false end.

Definition cell_eqb (a b : cell) : bool :=
  match a, b with
  | NaN, NaN => true
  | Num x, Num y => Qc_eqb x y
  | Str s, Str t => String.eqb s t
  | _, _ => false
  end.

(** Element-wise [==] of a column with a Python string: only a string cell
    with the same characters compares equal. *)
Definition eq_str (c : cell) (s : string) : bool :=
  match c with Str t => String.eqb t s | _ => false end.

(** Order used to sort group keys and values: numbers before strings,
    numbers by value, strings by code point. *)
Definition cell_leb (a b : cell) : bool :=
  match a, b with
  | NaN, _ => true
  | _, NaN => false
  | Num x, Num y => Qc_leb x y
  | Num _, Str _ => true
  | Str _, Num _ => false
  | Str s, Str t => String.leb s t
  end.

(** Python's [a >= b] on floats: false as soon as one side is NaN. *)
Definition float_ge (a b : cell) : bool :=
  match a, b with
  | Num x, Num y => Qc_leb y x
  | _, _ => false
  end.

(** A movie record, restricted to the three columns the script reads. *)
Record row : Type := mkRow {
  vote_average : cell;
  genre : cell;
  country : cell
}.

Definition DataFrame : Type := list row.

(** A pandas Series: index labels with their values, in order. *)
Definition Series : Type := list (cell * cell).

(** A two-level frame, stored by column as pandas does: the row labels, and
    for each column its label and its values along the row labels. *)
Record Pivot : Type := mkPivot {
  p_index : list cell;
  p_columns : list (cell * list cell)
}.

(** [Series.to_dict()] keeps the entries in order.  [DataFrame.to_dict()]
    maps each column label to the dict of its entries by row label. *)
Definition to_dict (s : Series) : list (cell * cell) := s.

Definition pivot_to_dict (p : Pivot) : list (cell * list (cell * cell)) :=
  map (fun col => (fst col, combine (p_index p) (snd col))) (p_columns p).

(** Exceptions of the libraries, by class. *)
Inductive exn : Type :=
| FileNotFoundError
| IsADirectoryError
| NotADirectoryError
| ParserError
| TypeError
| ValueError
| IndexError
| LibraryError (what : string).

(** ** Data ingestion: lines 12-17 of [load_and_preprocess_data] *)

(** [df.dropna(subset=['vote_average', 'genre', 'country'])] *)
Definition dropna_subset (df : DataFrame) : DataFrame :=
  filter (fun r => notna (vote_average r) && notna (genre r) && notna (country r)) df.

(** [Series.replace({...})] on one cell: a string that is a key of the
    mapping becomes its value, anything else is kept. *)
Definition replace (mapping : list (string * string)) (c : cell) : cell :=
  match c with
  | Str s => match assoc String.eqb s mapping with
             | Some t => Str t
             | None => c
             end
  | _ => c
  end.

Definition country_names : list (string * string) :=
  [("United States", "USA"); ("United Kingdom", "UK")].

Section Ingestion.
(** How pandas reads a string as a number; [None] when it is not one. *)
Variable to_float : string -> option Qc.

(** [pd.to_numeric(x, errors='coerce')] on one cell. *)
Definition to_numeric_coerce (c : cell) : cell :=
  match c with
  | NaN => NaN
  | Num x => Num x
  | Str s => match to_float s with Some x => Num x | None => NaN end
  end.

(** What lines 14 and 16 make of one row. *)
Definition clean (r0 : row) : row :=
  mkRow (to_numeric_coerce (vote_average r0)) (genre r0)
        (replace country_names (country r0)).

(** The frame [read_csv] returned, through lines 12, 14 and 16. *)
Definition preprocess (df : DataFrame) : DataFrame :=
  let df := dropna_subset df in
  let df := map (fun r => mkRow (to_numeric_coerce (vote_average r))
                                (genre r) (country r)) df in
  let df := map (fun r => mkRow (vote_average r) (genre r)
                                (replace country_names (country r))) df in
  df.
End Ingestion.

(** ** Data analysis: [groupby(...).mean()], [sort_values], [pivot_table] *)

Definition numeric_values (xs : list cell) : list Qc :=
  flat_map (fun c => match c with Num x => [x] | _ => [] end) xs.

(** [Series.mean()]: the arithmetic mean of the values that are numbers,
    NaN when there is none. *)
Definition series_mean (xs : list cell) : cell :=
  let vs := numeric_values xs in
  match vs with
  | [] => NaN
  | _ :: _ => Num (Qc_sum vs / Qc_of_nat (length vs))
  end.

Section GroupBy.
Context {K : Type}.
Variable key_eqb : K -> K -> bool.
Variable key_leb : K -> K -> bool.
Variable key_isna : K -> bool.

(** The group labels: the distinct keys that are not missing, sorted. *)
Definition factorize (keys : list K) : list K :=
  isort key_leb (dedup key_eqb (filter (fun k => negb (key_isna k)) keys)).

(** One pass over the rows, adding each numeric value to the running sum and
    count of its group; a row whose key is no label, or whose value is not a
    number, is skipped. *)
Definition group_step (labels : list K) (acc : list (Qc * nat)) (r : K * cell)
  : list (Qc * nat) :=
  match index_of key_eqb (fst r) labels, snd r with
  | Some i, Num x => update_nth i (fun a => ((fst a + x)%Qc, S (snd a))) acc
  | _, _ => acc
  end.

Definition group_sums (labels : list K) (rows : list (K * cell)) : list (Qc * nat) :=
  fold_left (group_step labels) rows (repeat (Q2Qc 0, 0%nat) (length labels)).

Definition group_finish (a : Qc * nat) : cell :=
  match snd a with
  | O => NaN
  | S _ => Num (fst a / Qc_of_nat (snd a))
  end.

(** The numeric values of the rows of the group of [k]. *)
Definition group_values (k : K) (rows : list (K * cell)) : list Qc :=
  numeric_values (map snd (filter (fun r => key_eqb k (fst r)) rows)).

(** [df.groupby(key)[value].mean()] on the rows as (key, value) pairs. *)
Definition groupby_mean (rows : list (K * cell)) : list (K * cell) :=
  let labels := factorize (map fst rows) in
  combine labels (map group_finish (group_sums labels rows)).
End GroupBy.

(** [Series.sort_values(ascending=False)]: the entries with a number, sorted
    by decreasing value, then the entries with NaN.  pandas sorts the
    reversed numeric entries upwards and reverses the result. *)
Definition sort_values_desc (s : Series) : Series :=
  let non_nans := filter (fun e => notna (snd e)) s in
  let nans := filter (fun e => isna (snd e)) s in
  rev (isort (fun a b => cell_leb (snd a) (snd b)) (rev non_nans)) ++ nans.

(** Keys of a two-column [groupby]. *)
Definition pair_eqb (a b : cell * cell) : bool :=
  cell_eqb (fst a) (fst b) && cell_eqb (snd a) (snd b).

Definition pair_leb (a b : cell * cell) : bool :=
  if cell_eqb (fst a) (fst b) then cell_leb (snd a) (snd b)
  else cell_leb (fst a) (fst b).

Definition pair_isna (a : cell * cell) : bool := isna (fst a) || isna (snd a).

(** [df.pivot_table(values='vote_average', index='genre', columns='country',
    aggfunc='mean')]: the means by (genre, country), the groups without a
    mean dropped, unstacked on the country, the columns without any value
    dropped. *)
Definition pivot_table (df : DataFrame) : Pivot :=
  let agged := groupby_mean pair_eqb pair_leb pair_isna
                 (map (fun r => ((genre r, country r), vote_average r)) df) in
  let agged := filter (fun e => notna (snd e)) agged in
  let index := factorize cell_eqb cell_leb isna (map (fun e => fst (fst e)) agged) in
  let columns := factorize cell_eqb cell_leb isna (map (fun e => snd (fst e)) agged) in
  let unstacked :=
    map (fun c => (c, map (fun g => match assoc pair_eqb (g, c) agged with
                                    | Some v => v
                                    | None => NaN
                                    end) index)) columns in
  mkPivot index (filter (fun col => existsb notna (snd col)) unstacked).

(** Whether each entry's value is [>=] the next entry's value. *)
Fixpoint consecutive_ge (s : Series) : bool :=
  match s with
  | a :: (b :: _) as t => float_ge (snd a) (snd b) && consecutive_ge t
  | _ => true
  end.

(** A series in the order [sort_values(ascending=False)] leaves it: the
    entries with a number, any earlier one [>=] any later one, then the
    entries with NaN. *)
Definition sorted_desc_nan_last (s : Series) : Prop :=
  exists numeric nans,
    s = numeric ++ nans /\
    StronglySorted (fun a b => float_ge (snd a) (snd b) = true) numeric /\
    consecutive_ge numeric = true /\
    Forall (fun e => exists x, snd e = Num x) numeric /\
    Forall (fun e => snd e = NaN) nans.

(** The mean of [vote_average] by one key column, highest first. *)
Definition mean_by (key : row -> cell) (df : DataFrame) : Series :=
  sort_values_desc
    (groupby_mean cell_eqb cell_leb isna (map (fun r => (key r, vote_average r)) df)).

(** [analyze_ratings].  pandas averages a numeric column only: a
    [vote_average] column that still holds strings makes [mean] raise. *)
Definition analyze_ratings (df : DataFrame) : exn + (Series * Series * Pivot) :=
  if existsb (fun r => is_str (vote_average r)) df then inl TypeError
  else
    let genre_ratings := mean_by genre df in
    let country_ratings := mean_by country df in
    let genre_country_ratings := pivot_table df in
    inr (genre_ratings, country_ratings, genre_country_ratings).

(** Truth value of [request.form.get(...)]: [None] and the empty string are
    false. *)
Definition truthy (o : option string) : bool :=
  match o with
  | Some s => negb (String.eqb s "")
  | None => false
  end.

(** Lines 75-79 of [analyze]. *)
Definition filter_rows (genre_arg country_arg : option string) (df : DataFrame)
  : DataFrame :=
  let filtered_df := df in
  let filtered_df :=
    match genre_arg with
    | Some g => if truthy genre_arg
                then filter (fun r => eq_str (genre r) g) filtered_df
                else filtered_df
    | None => filtered_df
    end in
  let filtered_df :=
    match country_arg with
    | Some c => if truthy country_arg
                then filter (fun r => eq_str (country r) c) filtered_df
                else filtered_df
    | None => filtered_df
    end in
  filtered_df.

(** ** The process: file system, exceptions, plotting *)

Inductive chart : Type :=
| BarPlot (x : list cell) (y : list cell)
| HeatMap (data : Pivot)
| BoxPlot (data : DataFrame).

(** What is drawn on the current matplotlib figure when it is saved. *)
Record figure : Type := mkFigure {
  fig_chart : chart;
  fig_title : string;
  fig_xlabel : option string;
  fig_ylabel : option string
}.

(** A path of the file system holds a directory, the CSV file (as the
    table [read_csv] reads from it), a saved figure, or something else. *)
Inductive node : Type :=
| Directory
| CsvFile (table : DataFrame)
| ImageFile (fig : figure)
| OtherFile.

Definition world : Type := string -> option node.

Definition write (p : string) (n : node) (w : world) : world :=
  fun q => if String.eqb q p then Some n else w q.

(** A Python computation: it returns or raises, and leaves a file system. *)
Inductive outcome (A : Type) : Type :=
| Returns (a : A) (w : world)
| Raises (e : exn) (w : world).
Arguments Returns {A} a w.
Arguments Raises {A} e w.

Definition py (A : Type) : Type := world -> outcome A.

Definition ret {A : Type} (a : A) : py A := fun w => Returns a w.

Definition raise {A : Type} (e : exn) : py A := fun w => Raises e w.

Definition bind {A B : Type} (c : py A) (k : A -> py B) : py B :=
  fun w => match c w with
           | Returns a w' => k a w'
           | Raises e w' => Raises e w'
           end.

Definition lift {A : Type} (r : exn + A) : py A :=
  match r with
  | inl e => raise e
  | inr a => ret a
  end.

Declare Scope py_scope.
Delimit Scope py_scope with py.
Notation "x <- c ;; k" := (bind c (fun x => k))
  (at level 61, c at next level, right associativity) : py_scope.
Notation "' p <- c ;; k" := (bind c (fun x => match x with p => k end))
  (at level 61, p pattern, c at next level, right associativity) : py_scope.
Notation "c ;; k" := (bind c (fun _ => k))
  (at level 61, right associativity) : py_scope.

Definition the_world {A : Type} (o : outcome A) : world :=
  match o with
  | Returns _ w => w
  | Raises _ w => w
  end.

(** What the caller observes of an outcome: the value or the exception. *)
Definition result {A : Type} (o : outcome A) : exn + A :=
  match o with
  | Returns a _ => inr a
  | Raises e _ => inl e
  end.

(** [pd.read_csv(path)] *)
Definition pd_read_csv (path : string) : py DataFrame :=
  fun w => match w path with
           | None => Raises FileNotFoundError w
           | Some Directory => Raises IsADirectoryError w
           | Some (CsvFile table) => Returns table w
           | Some _ => Raises ParserError w
           end.

Definition os_path_exists (path : string) : py bool :=
  fun w => Returns (match w path with Some _ => true | None => false end) w.

Definition os_makedirs (path : string) : py unit :=
  fun w => Returns tt (write path Directory w).

(** [os.path.join(a, b)] for a relative [b] and an [a] without trailing
    separator. *)
Definition os_path_join (a b : string) : string := a ++ "/" ++ b.

Fixpoint has_sep (s : string) : bool :=
  match s with
  | EmptyString => false
  | String c t => Ascii.eqb c "/" || has_sep t
  end.

(** [os.path.dirname] *)
Fixpoint dirname (s : string) : string :=
  match s with
  | EmptyString => EmptyString
  | String c t => if has_sep t then String c (dirname t) else EmptyString
  end.

Section Plotting.
(** Whether seaborn and matplotlib raise while drawing a figure, and what. *)
Variable draw_error : figure -> option exn.

(** [plt.figure(); sns...; plt.title...]: the figure is drawn, or the
    library raises. *)
Definition draw (f : figure) : py figure :=
  match draw_error f with
  | Some e => raise e
  | None => ret f
  end.

(** [plt.savefig(path); plt.close()]: the file is written into an existing
    directory. *)
Definition plt_savefig (path : string) (f : figure) : py unit :=
  fun w => match w (dirname path) with
           | Some Directory => Returns tt (write path (ImageFile f) w)
           | Some _ => Raises NotADirectoryError w
           | None => Raises FileNotFoundError w
           end.

(** [df.groupby(key)['vote_average'].mean().sort_values(ascending=False)],
    which raises on a column of strings. *)
Definition mean_by_checked (key : row -> cell) (df : DataFrame) : py Series :=
  if existsb (fun r => is_str (vote_average r)) df then raise TypeError
  else ret (mean_by key df).

Definition pivot_table_checked (df : DataFrame) : py Pivot :=
  if existsb (fun r => is_str (vote_average r)) df then raise TypeError
  else ret (pivot_table df).

Definition generate_plots (df : DataFrame) (output_dir : string) : py unit :=
  (there <- os_path_exists output_dir ;;
   (if negb there then os_makedirs output_dir else ret tt) ;;
   genre_ratings <- mean_by_checked genre df ;;
   f <- draw (mkFigure (BarPlot (map snd genre_ratings) (map fst genre_ratings))
                "Average Movie Ratings by Genre"
                (Some "Average Rating") (Some "Genre")) ;;
   plt_savefig (os_path_join output_dir "genre_ratings.png") f ;;
   genre_country_ratings <- pivot_table_checked df ;;
   f <- draw (mkFigure (HeatMap genre_country_ratings)
                "Average Ratings by Genre and Country" None None) ;;
   plt_savefig (os_path_join output_dir "genre_country_heatmap.png") f ;;
   f <- draw (mkFigure (BoxPlot df) "Rating Distribution by Genre" None None) ;;
   plt_savefig (os_path_join output_dir "genre_boxplot.png") f)%py.
(** [generate_plots] from the first [groupby] on, once [static] exists. *)
Definition draw_and_save (df : DataFrame) : py unit :=
  (genre_ratings <- mean_by_checked genre df ;;
   f <- draw
          (mkFigure (BarPlot (map snd genre_ratings) (map fst genre_ratings))
             "Average Movie Ratings by Genre"
             (Some "Average Rating") (Some "Genre")) ;;
   plt_savefig (os_path_join "static" "genre_ratings.png") f ;;
   genre_country_ratings <- pivot_table_checked df ;;
   f <- draw
          (mkFigure (HeatMap genre_country_ratings)
             "Average Ratings by Genre and Country" None None) ;;
   plt_savefig (os_path_join "static" "genre_country_heatmap.png") f ;;
   f <- draw
          (mkFigure (BoxPlot df) "Rating Distribution by Genre" None None) ;;
   plt_savefig (os_path_join "static" "genre_boxplot.png") f)%py.

(** Lines 31-32: afterwards [static] is there, a directory when usable. *)
Definition ensure_static (w : world) : world :=
  match w "static" with
  | None => write "static" Directory w
  | Some _ => w
  end.

End Plotting.

(** ** Templates *)

(** A rendered page: text, a value put in by [{{ ... }}], or an element. *)
Inductive html : Type :=
| Text (s : string)
| Expr (v : cell)
| Elem (tag : string) (attrs : list (string * string)) (kids : list html).

Definition tailwind : html :=
  Elem "link" [("href", "https://cdn.jsdelivr.net/npm/tailwindcss@2.2.19/dist/tailwind.min.css");
               ("rel", "stylesheet")] [].

(** templates/index.html *)
Definition index_html : html :=
  Elem "html" []
    [Elem "head" [] [Elem "title" [] [Text "IMDB Movie Ratings Analysis"]; tailwind];
     Elem "body" [("class", "bg-gray-100")]
       [Elem "div" [("class", "container mx-auto p-4")]
          [Elem "h1" [("class", "text-2xl font-bold mb-4")] [Text "IMDB Movie Ratings Analysis"];
           Elem "form" [("action", "/analyze"); ("method", "post"); ("class", "mb-4")]
             [Elem "div" [("class", "mb-4")]
                [Elem "label" [("for", "genre"); ("class", "block text-sm font-medium")]
                   [Text "Genre:"];
                 Elem "input" [("type", "text"); ("id", "genre"); ("name", "genre");
                               ("class", "border p-2 w-full"); ("placeholder", "e.g., Drama")] []];
              Elem "div" [("class", "mb-4")]
                [Elem "label" [("for", "country"); ("class", "block text-sm font-medium")]
                   [Text "Country:"];
                 Elem "input" [("type", "text"); ("id", "country"); ("name", "country");
                               ("class", "border p-2 w-full"); ("placeholder", "e.g., USA")] []];
              Elem "button" [("type", "submit"); ("class", "bg-blue-500 text-white p-2 rounded")]
                [Text "Analyze"]]]]].

(** The [round(2)] filter. *)
Definition round_filter (v : cell) : cell :=
  match v with
  | Num x => Num (round2 x)
  | _ => v
  end.

(** [<li>{{ key }}: {{ rating | round(2) }}</li>] *)
Definition rating_item (e : cell * cell) : html :=
  Elem "li" [] [Expr (fst e); Text ": "; Expr (round_filter (snd e))].

Definition img (src alt : string) : html :=
  Elem "img" [("src", src); ("alt", alt); ("class", "mb-4")] [].

(** templates/results.html; [genre_country_ratings] is passed to it and not
    used. *)
Definition results_html (genre_ratings country_ratings : list (cell * cell))
  (genre_country_ratings : list (cell * list (cell * cell)))
  (genre_plot heatmap_plot boxplot_plot : string) : html :=
  Elem "html" []
    [Elem "head" [] [Elem "title" [] [Text "Analysis Results"]; tailwind];
     Elem "body" [("class", "bg-gray-100")]
       [Elem "div" [("class", "container mx-auto p-4")]
          [Elem "h1" [("class", "text-2xl font-bold mb-4")] [Text "Analysis Results"];
           Elem "h2" [("class", "text-xl mb-2")] [Text "Genre Ratings"];
           Elem "ul" [] (map rating_item genre_ratings);
           Elem "h2" [("class", "text-xl mb-2")] [Text "Country Ratings"];
           Elem "ul" [] (map rating_item country_ratings);
           Elem "h2" [("class", "text-xl mb-2")] [Text "Visualizations"];
           img genre_plot "Genre Ratings";
           img heatmap_plot "Genre-Country Heatmap";
           img boxplot_plot "Genre Boxplot";
           Elem "a" [("href", "/"); ("class", "text-blue-500")] [Text "Back to Home"]]]].

(** The entry an item shows for an entry of a table. *)
Definition shown (e : cell * cell) : cell * cell := (fst e, round_filter (snd e)).

(** *** Reading a page back *)

Definition attr (name : string) (attrs : list (string * string)) : option string :=
  assoc String.eqb name attrs.

(** The sources of the images of a page, in document order. *)
Fixpoint image_links (h : html) : list string :=
  match h with
  | Elem tag attrs kids =>
      (if String.eqb tag "img"
       then match attr "src" attrs with Some s => [s] | None => [] end
       else []) ++ flat_map image_links kids
  | _ => []
  end.

(** The entry an item of a list shows: [key: value]. *)
Definition item_entry (h : html) : list (cell * cell) :=
  match h with
  | Elem "li" _ [Expr k; Text ": "; Expr v] => [(k, v)]
  | _ => []
  end.

(** The lists of a page, each as the entries of its items. *)
Fixpoint breakdown_tables (h : html) : list (list (cell * cell)) :=
  match h with
  | Elem tag attrs kids =>
      (if String.eqb tag "ul" then [flat_map item_entry kids] else [])
      ++ flat_map breakdown_tables kids
  | _ => []
  end.

(** The names of the input fields of the forms of a page, with the action
    and method of the form they belong to. *)
Fixpoint input_names (h : html) : list string :=
  match h with
  | Elem tag attrs kids =>
      (if String.eqb tag "input"
       then match attr "name" attrs with Some s => [s] | None => [] end
       else []) ++ flat_map input_names kids
  | _ => []
  end.

Fixpoint forms (h : html) : list (option string * option string * list string) :=
  match h with
  | Elem tag attrs kids =>
      (if String.eqb tag "form"
       then [(attr "action" attrs, attr "method" attrs, flat_map input_names kids)]
       else []) ++ flat_map forms kids
  | _ => []
  end.

(** The targets of the links ([<a href=...>]) of a page, in document order. *)
Fixpoint hrefs (h : html) : list string :=
  match h with
  | Elem tag attrs kids =>
      (if String.eqb tag "a"
       then match attr "href" attrs with Some s => [s] | None => [] end
       else []) ++ flat_map hrefs kids
  | _ => []
  end.

(** ** The Flask application *)

Inductive http_method : Type := GET | HEAD | OPTIONS | POST | PUT | DELETE | PATCH.

Definition http_method_eqb (a b : http_method) : bool :=
  match a, b with
  | GET, GET | HEAD, HEAD | OPTIONS, OPTIONS | POST, POST
  | PUT, PUT | DELETE, DELETE | PATCH, PATCH => true
  | _, _ => false
  end.

(** A request: its method, the path of its URL as the rules are matched
    against it, and the fields of its form. *)
Record request : Type := mkRequest {
  req_method : http_method;
  req_path : string;
  req_form : list (string * string)
}.

(** [request.form.get(name)]: the first value of the field, or [None]. *)
Definition form_get (name : string) (form : list (string * string)) : option string :=
  assoc String.eqb name form.

Inductive response : Type :=
| Page (body : html)                       (* 200 with the view's page *)
| SentFile (content : node)                (* 200 with a file of the static folder *)
| Allow (methods : list http_method)       (* 200, automatic OPTIONS reply *)
| NotFound                                 (* 404 *)
| MethodNotAllowed                         (* 405 *)
| Unhandled (e : exn).                     (* the view raised *)

Definition csv_path : string := "path/to/imdb_dataset.csv".

(** A URL rule: a fixed path, or a prefix followed by [<path:filename>], a
    rest of the path that is not empty and does not start with a slash. *)
Inductive rule_pattern : Type :=
| Exactly (path : string)
| PathUnder (prefix : string).

Fixpoint strip_prefix (p s : string) : option string :=
  match p with
  | EmptyString => Some s
  | String a p' =>
      match s with
      | String b s' => if Ascii.eqb a b then strip_prefix p' s' else None
      | EmptyString => None
      end
  end.

(** Whether a rule matches a path, and the [filename] it then hands to its
    view (empty for a fixed path). *)
Definition match_rule (r : rule_pattern) (path : string) : option string :=
  match r with
  | Exactly p => if String.eqb p path then Some EmptyString else None
  | PathUnder p =>
      match strip_prefix p path with
      | Some (String c rest) =>
          if Ascii.eqb c "/" then None else Some (String c rest)
      | _ => None
      end
  end.

(** [s.split('/')] *)
Fixpoint split_slash (s : string) : list string :=
  match s with
  | EmptyString => [EmptyString]
  | String c t =>
      if Ascii.eqb c "/" then EmptyString :: split_slash t
      else match split_slash t with
           | h :: rest => String c h :: rest
           | [] => [String c EmptyString]
           end
  end.

(** One component in [posixpath.normpath] of a relative path; the
    components kept so far are listed last first. *)
Definition normpath_step (kept : list string) (comp : string) : list string :=
  if String.eqb comp "" || String.eqb comp "." then kept
  else if String.eqb comp ".." then
    match kept with
    | [] => [comp]
    | top :: rest => if String.eqb top ".." then comp :: kept else rest
    end
  else comp :: kept.

(** [posixpath.normpath] of a relative path. *)
Definition normpath (path : string) : string :=
  match rev (fold_left normpath_step (split_slash path) []) with
  | [] => "."
  | comps => String.concat "/" comps
  end.

(** werkzeug's [safe_join(directory, filename)]: [None] for a file name
    that is absolute or leaves the directory. *)
Definition safe_join (directory filename : string) : option string :=
  if String.prefix "/" filename then None
  else
    let filename := if String.eqb filename "" then filename else normpath filename in
    if String.eqb filename ".." || String.prefix "../" filename then None
    else Some (os_path_join directory filename).

(** Flask's [send_static_file]: the file of that name in the static folder,
    or 404.  The static folder is the directory [static] next to the
    script; the process is taken to run there, so that it is the directory
    [generate_plots] writes to. *)
Definition send_static_file (filename : string) (w : world) : response :=
  match safe_join "static" filename with
  | None => NotFound
  | Some path =>
      match w path with
      | None | Some Directory => NotFound
      | Some file => SentFile file
      end
  end.

(** What a rule leads to: a view function of the script, or Flask's own
    view for the static folder. *)
Inductive endpoint : Type :=
| View (f : list (string * string) -> py html)
| StaticFile.

Record route : Type := mkRoute {
  rule : rule_pattern;
  methods : list http_method;
  endpoint_of : endpoint
}.

Section WebApp.
Variable to_float : string -> option Qc.
Variable draw_error : figure -> option exn.

Definition load_and_preprocess_data (file_path : string) : py DataFrame :=
  (df <- pd_read_csv file_path ;;
   ret (preprocess to_float df))%py.

Definition render_template_index : py html := ret index_html.

(** [index] *)
Definition index (form : list (string * string)) : py html :=
  render_template_index.

(** [analyze] *)
Definition analyze (form : list (string * string)) : py html :=
  (let genre_arg := form_get "genre" form in
   let country_arg := form_get "country" form in
   df <- load_and_preprocess_data csv_path ;;
   generate_plots draw_error df "static" ;;
   let filtered_df := filter_rows genre_arg country_arg df in
   '(genre_ratings, country_ratings, genre_country_ratings)
      <- lift (analyze_ratings filtered_df) ;;
   ret (results_html (to_dict genre_ratings) (to_dict country_ratings)
          (pivot_to_dict genre_country_ratings)
          "static/genre_ratings.png"
          "static/genre_country_heatmap.png"
          "static/genre_boxplot.png"))%py.

(** The rules of the application: the rule for the static folder, which
    [Flask(__name__)] registers, and the rules of the two [@app.route]
    decorators.  A rule without [methods] answers GET. *)
Definition url_map : list route :=
  [mkRoute (PathUnder "/static/") [GET] StaticFile;
   mkRoute (Exactly "/") [GET] (View index);
   mkRoute (Exactly "/analyze") [POST] (View analyze)].

(** Flask adds HEAD to a rule that answers GET, and OPTIONS to every rule. *)
Definition allowed_methods (r : route) : list http_method :=
  methods r
  ++ (if existsb (http_method_eqb GET) (methods r) then [HEAD] else [])
  ++ [OPTIONS].

(** The first rule that matches a path, with the file name it matched. *)
Fixpoint first_match (rules : list route) (path : string) : option (route * string) :=
  match rules with
  | [] => None
  | r :: rest =>
      match match_rule (rule r) path with
      | Some filename => Some (r, filename)
      | None => first_match rest path
      end
  end.

Definition find_rule (path : string) : option (route * string) :=
  first_match url_map path.

(** One request through the rules of [url_map]. *)
Definition dispatch (req : request) (w : world) : response * world :=
  match find_rule (req_path req) with
  | None => (NotFound, w)
  | Some (r, filename) =>
      if negb (existsb (http_method_eqb (req_method req)) (allowed_methods r))
      then (MethodNotAllowed, w)
      else if existsb (http_method_eqb (req_method req)) (methods r)
              || http_method_eqb (req_method req) HEAD
      then match endpoint_of r with
           | View f =>
               match f (req_form req) w with
               | Returns body w' => (Page body, w')
               | Raises e w' => (Unhandled e, w')
               end
           | StaticFile => (send_static_file filename w, w)
           end
      else (Allow (allowed_methods r), w)
  end.

(** The requests of a list, one after the other. *)
Fixpoint serve (reqs : list request) (w : world) : world :=
  match reqs with
  | [] => w
  | req :: rest => serve rest (snd (dispatch req w))
  end.
End WebApp.

Section Main.
Variable to_float : string -> option Qc.
Variable draw_error : figure -> option exn.

(** The [__main__] block, before [app.run]. *)
Definition main : py unit :=
  (df <- load_and_preprocess_data to_float csv_path ;;
   generate_plots draw_error df "static")%py.
End Main.

(** ** Decimal numerals *)

Definition string_of_N (n : N) : string := NilZero.string_of_uint (N.to_uint n).

Definition digit (d : N) : ascii := ascii_of_N (48 + d).

(** A numeral with two decimals, and the number it writes. *)
Definition two_decimals (n d1 d2 : N) : string :=
  (string_of_N n ++ "." ++ String (digit d1) (String (digit d2) ""))%string.

Definition two_decimals_value (n d1 d2 : N) : Q :=
  inject_Z (Z.of_N n) + inject_Z (Z.of_N d1) / 10 + inject_Z (Z.of_N d2) / 100.

(** Python's ['%.2f' % x]: the nearest multiple of 1/100, written with its
    integer part, a point and two digits. *)
Definition format_2f (x : Qc) : string :=
  let cents := Z.abs_N (round_half_even (x * Q2Qc 100)) in
  ((if Qle_bool 0 x then "" else "-")
   ++ two_decimals (cents / 100) ((cents mod 100) / 10) (cents mod 10))%string.

Fixpoint split_point (s : string) : string * option string :=
  match s with
  | EmptyString => (EmptyString, None)
  | String c t =>
      if Ascii.eqb c "." then (EmptyString, Some t)
      else let (a, b) := split_point t in (String c a, b)
  end.

Definition digits_value (s : string) : option N :=
  option_map N.of_uint (NilEmpty.uint_of_string s).

(** The plain decimal numerals: an optional sign, digits, and optionally a
    point and digits, with a digit somewhere.  pandas reads these as the
    number they write (and further forms, such as exponents, that the
    examples below do not use); anything else here is not a number. *)
Definition parse_decimal (s : string) : option Qc :=
  let (neg, body) :=
    match s with
    | String "-" t => (true, t)
    | String "+" t => (false, t)
    | _ => (false, s)
    end in
  let (ip, fp) := split_point body in
  let fp := match fp with Some f => f | None => EmptyString end in
  if (String.length ip + String.length fp =? 0)%nat then None
  else
    match digits_value ip, digits_value fp with
    | Some i, Some f =>
        let scale := (10 ^ N.of_nat (String.length fp))%N in
        let q := Q2Qc (Qmake (Z.of_N (i * scale + f)) (Pos.of_nat (N.to_nat scale))) in
        Some (if neg then (- q)%Qc else q)
    | _, _ => None
    end.

(** ** The iris script *)

Declare Scope exn_scope.
Delimit Scope exn_scope with exn.

Definition bind_exn {A B : Type} (r : exn + A) (k : A -> exn + B) : exn + B :=
  match r with
  | inl e => inl e
  | inr a => k a
  end.

Notation "x <- c ;; k" := (bind_exn c (fun x => k))
  (at level 61, c at next level, right associativity) : exn_scope.
Notation "' p <- c ;; k" := (bind_exn c (fun x => match x with p => k end))
  (at level 61, p pattern, c at next level, right associativity) : exn_scope.

(** [a[ind]] for an array of indices: an index out of range raises. *)
Fixpoint take {A : Type} (a : list A) (ind : list nat) : exn + list A :=
  match ind with
  | [] => inr []
  | i :: rest =>
      match nth_error a i with
      | None => inl IndexError
      | Some x => (l <- take a rest ;; inr (x :: l))%exn
      end
  end.

Fixpoint map_exn {A B : Type} (f : A -> exn + B) (l : list A) : exn + list B :=
  match l with
  | [] => inr []
  | x :: t => (y <- f x ;; ys <- map_exn f t ;; inr (y :: ys))%exn
  end.

(** [ceil(0.2 * n)] *)
Definition n_test_of (n : nat) : nat :=
  Z.to_nat (Qceiling ((2 # 10) * inject_Z (Z.of_nat n))).

Section Split.
(** [RandomState(42).permutation(n)], the shuffle of the indices below [n]. *)
Variable permutation : nat -> list nat.

(** [train_test_split(X, y, test_size=0.2, random_state=42)] *)
Definition train_test_split {A B : Type} (X : list A) (y : list B)
  : exn + (list A * list A * list B * list B) :=
  let n_samples := length X in
  if negb (length y =? n_samples)%nat then inl ValueError
  else
    let n_test := n_test_of n_samples in
    let n_train := (n_samples - n_test)%nat in
    if (n_train =? 0)%nat then inl ValueError
    else
      let perm := permutation n_samples in
      let ind_test := firstn n_test perm in
      let ind_train := firstn n_train (skipn n_test perm) in
      (X_train <- take X ind_train ;;
       X_test <- take X ind_test ;;
       y_train <- take y ind_train ;;
       y_test <- take y ind_test ;;
       inr (X_train, X_test, y_train, y_test))%exn.
End Split.

(** A fitted [KNeighborsClassifier]: it keeps the training samples. *)
Record KNeighborsClassifier : Type := mkKNN {
  n_neighbors : nat;
  fit_X : list (list Qc);
  fit_y : list nat
}.

(** [KNeighborsClassifier(n_neighbors=k).fit(X, y)] *)
Definition fit (k : nat) (X : list (list Qc)) (y : list nat)
  : exn + KNeighborsClassifier :=
  if negb (length y =? length X)%nat then inl ValueError
  else inr (mkKNN k X y).

(** Squared Euclidean distance; it orders the samples as the distance does. *)
Definition sq_dist (a b : list Qc) : Qc :=
  Qc_sum (map (fun p => ((fst p - snd p) * (fst p - snd p))%Qc) (combine a b)).

(** The training samples by increasing distance to [x], as (index, distance);
    samples at the same distance stay in training order. *)
Definition by_distance (m : KNeighborsClassifier) (x : list Qc) : list (nat * Qc) :=
  isort (fun a b => Qc_leb (snd a) (snd b))
        (combine (seq 0 (length (fit_X m))) (map (sq_dist x) (fit_X m))).

(** The search behind [kneighbors] lists the training samples, nearest
    first.  scikit-learn chooses it (brute force, k-d tree or ball tree), and
    which of several samples at one distance comes first is the search's own
    affair; so the search is a parameter of the classifier's methods. *)
Definition search : Type := KNeighborsClassifier -> list Qc -> list nat.

(** What every search does: it lists each training index once, by
    increasing distance to the sample asked about. *)
Definition nearest_first (s : search) : Prop :=
  forall (m : KNeighborsClassifier) (x : list Qc),
    Permutation (s m x) (seq 0 (length (fit_X m))) /\ StronglySorted
      (fun i j => (sq_dist x (nth i (fit_X m) []) <= sq_dist x (nth j (fit_X m) []))%Qc)
      (s m x).

(** The search that leaves samples at the same distance in training order. *)
Definition brute_force : search := fun m x => map fst (by_distance m x).

Section Neighbours.
Variable nn : search.

(** [kneighbors]: the indices of the [n_neighbors] nearest training samples. *)
Definition kneighbors (m : KNeighborsClassifier) (x : list Qc) : exn + list nat :=
  if (length (fit_X m) <? n_neighbors m)%nat then inl ValueError
  else inr (firstn (n_neighbors m) (nn m x)).
End Neighbours.

Definition classes (m : KNeighborsClassifier) : list nat :=
  isort Nat.leb (dedup Nat.eqb (fit_y m)).

Definition votes (labels : list nat) (c : nat) : nat :=
  List.length (filter (Nat.eqb c) labels).

(** The most frequent label, the smallest one among equals. *)
Definition mode (cs : list nat) (labels : list nat) : nat :=
  match cs with
  | [] => 0%nat
  | c :: rest =>
      fold_left (fun best c' => if (votes labels best <? votes labels c')%nat
                                then c' else best) rest c
  end.

Section Predict.
Variable nn : search.

Definition predict_one (m : KNeighborsClassifier) (x : list Qc) : exn + nat :=
  (ind <- kneighbors nn m x ;;
   inr (mode (classes m) (map (fun i => nth i (fit_y m) 0%nat) ind)))%exn.

Definition predict (m : KNeighborsClassifier) (X : list (list Qc)) : exn + list nat :=
  map_exn (predict_one m) X.
End Predict.

(** [accuracy_score]: the mean of [y_pred == y_true]. *)
Definition accuracy_score (y_true y_pred : list nat) : Qc :=
  (Qc_sum (map (fun p => if (fst p =? snd p)%nat then Q2Qc 1 else Q2Qc 0)
               (combine y_true y_pred))
   / Qc_of_nat (List.length y_true))%Qc.

Definition score (nn : search) (m : KNeighborsClassifier) (X : list (list Qc))
  (y : list nat) : exn + Qc :=
  (y_pred <- predict nn m X ;;
   inr (accuracy_score y y_pred))%exn.

Section IrisScript.
(** The neighbour search scikit-learn uses. *)
Variable nn : search.
(** [load_iris()]: the samples and their labels. *)
Variable iris_data : list (list Qc).
Variable iris_target : list nat.
Variable permutation : nat -> list nat.

(** The script; its value is what it prints, line by line. *)
Definition iris_classifier : exn + list string :=
  (let X := iris_data in
   let y := iris_target in
   '(X_train, X_test, y_train, y_test) <- train_test_split permutation X y ;;
   model <- fit 3 X_train y_train ;;
   accuracy <- score nn model X_test y_test ;;
   inr [("Accuracy: " ++ format_2f (accuracy * Q2Qc 100) ++ "%")%string])%exn.
End IrisScript.

(** ** What a request can observe of the file system *)

(** The state of the [static] directory. *)
Inductive dir_state : Type := Absent | IsDirectory | NotDirectory.

Definition static_state (w : world) : dir_state :=
  match w "static" with
  | None => Absent
  | Some Directory => IsDirectory
  | Some _ => NotDirectory
  end.

(** Whether figures can be saved under [static], once it is created when
    absent. *)
Definition static_usable (w : world) : bool :=
  match static_state w with
  | NotDirectory => false
  | _ => true
  end.

(** The CSV file and the usability of [static]: all that the handlers read
    of the file system. *)
Definition observed (w : world) : option node * bool :=
  (w csv_path, static_usable w).

(** The same, with [static] told apart absent from present. *)
Definition observed_exactly (w : world) : option node * dir_state :=
  (w csv_path, static_state w).

(** A computation whose result, and what it leaves to observe, depend on the
    file system only through the observation [V]. *)
Definition respects {X A : Type} (V : world -> X) (c : py A) : Prop :=
  forall w w', V w = V w' ->
    result (c w) = result (c w') /\ V (the_world (c w)) = V (the_world (c w')).

(** A computation that leaves the observation [V] as it found it. *)
Definition preserves {X A : Type} (V : world -> X) (c : py A) : Prop :=
  forall w, V (the_world (c w)) = V w.

(** ** Example inputs *)

(** A table whose Comedy row has a rating that is no number. *)
Definition two_genres : DataFrame :=
  [mkRow (Str "8.5") (Str "Drama") (Str "USA");
   mkRow (Str "unrated") (Str "Comedy") (Str "USA")].

Definition sample_table : DataFrame :=
  [mkRow (Str "8.5") (Str "Drama") (Str "United States");
   mkRow (Str "6.0") (Str "Drama") (Str "UK");
   mkRow (Str "7") (Str "Action") (Str "United Kingdom");
   mkRow NaN (Str "Action") (Str "USA");
   mkRow (Str "unrated") (Str "Comedy") (Str "France")].

(** A file system with the CSV file and nothing else. *)
Definition sample_world : world :=
  write csv_path (CsvFile sample_table) (fun _ => None).

(** Drawing never fails. *)
Definition draws_all (f : figure) : option exn := None.

(** ** Shuffles, counts and a toy data set *)

Fixpoint nodupb (l : list nat) : bool :=
  match l with
  | [] => true
  | x :: t => negb (existsb (Nat.eqb x) t) && nodupb t
  end.

(** [l] lists the indices below [n], each once. *)
Definition is_shuffle (n : nat) (l : list nat) : bool :=
  (length l =? n)%nat && forallb (fun i => (i <? n)%nat) l && nodupb l.

(** The number of samples whose predicted label is the true one. *)
Definition correct (y_true y_pred : list nat) : nat :=
  length (filter (fun p => (fst p =? snd p)%nat) (combine y_true y_pred)).

(** The label [predict] gives to [x] once [kneighbors] succeeds. *)
Definition predicted_label (nn : search) (m : KNeighborsClassifier) (x : list Qc)
  : nat :=
  mode (classes m)
       (map (fun i => nth i (fit_y m) 0%nat) (firstn (n_neighbors m) (nn m x))).

(** The rows of an array at the indices of a list. *)
Definition rows_at {A : Type} (d : A) (a : list A) (ind : list nat) : list A :=
  map (fun i => nth i a d) ind.

(** The indices [train_test_split] gives to the test part and to the
    training part of [n] samples. *)
Definition test_indices (permutation : nat -> list nat) (n : nat) : list nat :=
  firstn (n_test_of n) (permutation n).

Definition train_indices (permutation : nat -> list nat) (n : nat) : list nat :=
  skipn (n_test_of n) (permutation n).

(** 150 samples of three classes, and the shuffle that reverses the order. *)
Definition toy_data : list (list Qc) :=
  map (fun i => [Qc_of_nat (10 * (i mod 3)); Qc_of_nat (i mod 2)]) (seq 0 150).

Definition toy_target : list nat := map (fun i => i mod 3) (seq 0 150).

Definition toy_permutation (n : nat) : list nat := rev (seq 0 n).


(** ** Ratings within a range *)

(** Whether every numeric rating of a frame lies between [lo] and [hi]. *)
Definition ratings_within (lo hi : Qc) (df : DataFrame) : bool :=
  forallb (fun r => match vote_average r with
                    | Num x => Qc_leb lo x && Qc_leb x hi
                    | _ => true
                    end) df.

(** ** The figures and files of [generate_plots] *)

Definition genre_bar_figure (df : DataFrame) : figure :=
  mkFigure (BarPlot (map snd (mean_by genre df)) (map fst (mean_by genre df)))
    "Average Movie Ratings by Genre" (Some "Average Rating") (Some "Genre").

Definition heatmap_figure (df : DataFrame) : figure :=
  mkFigure (HeatMap (pivot_table df)) "Average Ratings by Genre and Country" None None.

Definition boxplot_figure (df : DataFrame) : figure :=
  mkFigure (BoxPlot df) "Rating Distribution by Genre" None None.

(** The paths [generate_plots] may write with the output directory [static]. *)
Definition plot_paths : list string :=
  ["static"; "static/genre_ratings.png"; "static/genre_country_heatmap.png";
   "static/genre_boxplot.png"].

(** The file system after the first, the second and the third figure are
    saved. *)
Definition saved_1 (df : DataFrame) (w : world) : world :=
  write "static/genre_ratings.png" (ImageFile (genre_bar_figure df)) (ensure_static w).

Definition saved_2 (df : DataFrame) (w : world) : world :=
  write "static/genre_country_heatmap.png" (ImageFile (heatmap_figure df)) (saved_1 df w).

Definition saved_3 (df : DataFrame) (w : world) : world :=
  write "static/genre_boxplot.png" (ImageFile (boxplot_figure df)) (saved_2 df w).

(** * Part II: theorems *)

(** ** Lists *)

Section SortingFacts.
Context {A : Type}.
Variable leb : A -> A -> bool.

Lemma insert_sorted_perm (x : A) (l : list A) :
  Permutation (x :: l) (insert_sorted leb x l).
Proof.
  induction l as [|h t IH]; simpl; [reflexivity|].
  destruct (leb x h); [reflexivity|].
  rewrite perm_swap. now constructor.
Qed.

Lemma isort_perm (l : list A) : Permutation l (isort leb l).
Proof.
  induction l as [|x t IH]; simpl; [constructor|].
  rewrite <- insert_sorted_perm. now constructor.
Qed.

Lemma isort_In (x : A) (l : list A) : In x (isort leb l) <-> In x l.
Proof.
  split; apply Permutation_in; [symmetry|]; apply isort_perm.
Qed.

Lemma isort_length (l : list A) : length (isort leb l) = length l.
Proof. symmetry. apply Permutation_length, isort_perm. Qed.

Hypothesis leb_total : forall a b, leb a b = false -> leb b a = true.
Hypothesis leb_trans :
  forall a b c, leb a b = true -> leb b c = true -> leb a c = true.

Lemma insert_sorted_sorted (x : A) (l : list A) :
  StronglySorted (fun a b => leb a b = true) l ->
  StronglySorted (fun a b => leb a b = true) (insert_sorted leb x l).
Proof.
  induction 1 as [|h t Hs IH Hh]; simpl.
  - repeat constructor.
  - destruct (leb x h) eqn:E.
    + constructor; [now constructor|].
      constructor; [exact E|].
      eapply Forall_impl; [|exact Hh]. intros a Ha. now apply leb_trans with h.
    + constructor; [exact IH|].
      rewrite Forall_forall. intros a Ha.
      apply (Permutation_in _ (Permutation_sym (insert_sorted_perm x t))) in Ha.
      destruct Ha as [<-|Ha]; [now apply leb_total|].
      rewrite Forall_forall in Hh. now apply Hh.
Qed.

Lemma isort_sorted (l : list A) :
  StronglySorted (fun a b => leb a b = true) (isort leb l).
Proof.
  induction l as [|x t IH]; simpl; [constructor|].
  now apply insert_sorted_sorted.
Qed.
End SortingFacts.

Lemma StronglySorted_snoc {A : Type} (R : A -> A -> Prop) (l : list A) (x : A) :
  StronglySorted R l -> Forall (fun a => R a x) l -> StronglySorted R (l ++ [x]).
Proof.
  induction 1 as [|h t Hs IH Hh]; simpl; intros F.
  - repeat constructor.
  - inversion F as [|? ? Hx Ft]; subst. constructor; [now apply IH|].
    apply Forall_app. split; [exact Hh|]. now repeat constructor.
Qed.

Lemma StronglySorted_rev {A : Type} (R : A -> A -> Prop) (l : list A) :
  StronglySorted R l -> StronglySorted (fun a b => R b a) (rev l).
Proof.
  induction 1 as [|h t Hs IH Hh]; simpl; [constructor|].
  apply StronglySorted_snoc; [exact IH|].
  apply Forall_rev. exact Hh.
Qed.

Section LookupFacts.
Context {K : Type}.
Variable eqb : K -> K -> bool.
Hypothesis eqb_eq : forall a b, eqb a b = true <-> a = b.

Lemma eqb_refl (a : K) : eqb a a = true.
Proof. now apply eqb_eq. Qed.

Lemma eqb_neq (a b : K) : eqb a b = false <-> a <> b.
Proof.
  split.
  - intros E H. apply eqb_eq in H. congruence.
  - intros H. destruct (eqb a b) eqn:E; [|reflexivity].
    apply eqb_eq in E. contradiction.
Qed.

Lemma existsb_eqb_In (k : K) (l : list K) : existsb (eqb k) l = true <-> In k l.
Proof.
  rewrite existsb_exists. split.
  - intros [x [Hx E]]. apply eqb_eq in E. now subst.
  - intros H. exists k. split; [exact H|apply eqb_refl].
Qed.

Lemma index_of_None (k : K) (l : list K) :
  index_of eqb k l = None <-> ~ In k l.
Proof.
  induction l as [|h t IH]; simpl; [tauto|].
  destruct (eqb k h) eqn:E.
  - apply eqb_eq in E. subst. split; [discriminate|tauto].
  - apply eqb_neq in E.
    destruct (index_of eqb k t); simpl.
    + split; [discriminate|]. intros H. exfalso. apply H. right.
      apply Decidable.not_not; [|intros H'; apply IH in H'; discriminate].
      destruct (existsb (eqb k) t) eqn:X.
      * left. now apply existsb_eqb_In.
      * right. intros HI. apply existsb_eqb_In in HI. congruence.
    + split; [|reflexivity]. intros _ [H|H]; [congruence|]. now apply IH.
Qed.

Lemma index_of_Some (k : K) (l : list K) (i : nat) :
  index_of eqb k l = Some i -> nth_error l i = Some k.
Proof.
  revert i. induction l as [|h t IH]; simpl; intros i; [discriminate|].
  destruct (eqb k h) eqn:E.
  - intros [= <-]. apply eqb_eq in E. now subst.
  - destruct (index_of eqb k t) as [j|]; simpl; [|discriminate].
    intros [= <-]. simpl. now apply IH.
Qed.

Lemma index_of_In (k : K) (l : list K) :
  In k l -> exists i, index_of eqb k l = Some i.
Proof.
  intros H. destruct (index_of eqb k l) as [i|] eqn:E; [now exists i|].
  apply index_of_None in E. contradiction.
Qed.

(** Looking a key up in [combine labels values] reads the slot of the key. *)
Lemma assoc_combine {V : Type} (k : K) (labels : list K) (values : list V) :
  length values = length labels ->
  assoc eqb k (combine labels values) =
  match index_of eqb k labels with
  | Some i => nth_error values i
  | None => None
  end.
Proof.
  revert values. induction labels as [|h t IH]; intros [|v vs]; simpl;
    try discriminate; [reflexivity|].
  intros [= L]. destruct (eqb k h); [reflexivity|].
  rewrite (IH vs L). now destruct (index_of eqb k t).
Qed.

Lemma assoc_In {V : Type} (k : K) (v : V) (l : list (K * V)) :
  assoc eqb k l = Some v -> In (k, v) l.
Proof.
  induction l as [|[k' v'] t IH]; simpl; [discriminate|].
  destruct (eqb k k') eqn:E.
  - intros [= <-]. apply eqb_eq in E. subst. now left.
  - intros H. right. now apply IH.
Qed.

Lemma assoc_None {V : Type} (k : K) (l : list (K * V)) :
  assoc eqb k l = None <-> ~ In k (map fst l).
Proof.
  induction l as [|[k' v'] t IH]; simpl; [tauto|].
  destruct (eqb k k') eqn:E.
  - apply eqb_eq in E. subst. split; [discriminate|tauto].
  - apply eqb_neq in E. rewrite IH. split; [intros H [H'|H']; congruence|tauto].
Qed.

(** With distinct keys a dict is determined by its entries. *)
Lemma In_assoc {V : Type} (k : K) (v : V) (l : list (K * V)) :
  NoDup (map fst l) -> In (k, v) l -> assoc eqb k l = Some v.
Proof.
  induction l as [|[k' v'] t IH]; simpl; [tauto|].
  intros ND [H|H].
  - injection H as -> ->. now rewrite eqb_refl.
  - inversion ND as [|? ? Hn ND']; subst.
    destruct (eqb k k') eqn:E.
    + apply eqb_eq in E. subst. exfalso. apply Hn.
      change k' with (fst (k', v)). now apply in_map.
    + now apply IH.
Qed.

Lemma assoc_perm {V : Type} (k : K) (l l' : list (K * V)) :
  NoDup (map fst l) -> Permutation l l' -> assoc eqb k l' = assoc eqb k l.
Proof.
  intros ND P.
  assert (ND' : NoDup (map fst l')).
  { eapply Permutation_NoDup; [|exact ND]. now apply Permutation_map. }
  destruct (assoc eqb k l) as [v|] eqn:E.
  - apply In_assoc; [exact ND'|]. eapply Permutation_in; [exact P|].
    now apply assoc_In.
  - apply assoc_None. apply assoc_None in E. intros H. apply E.
    eapply Permutation_in; [|exact H]. apply Permutation_map. now symmetry.
Qed.

Lemma assoc_filter {V : Type} (p : K * V -> bool) (k : K) (l : list (K * V)) :
  NoDup (map fst l) ->
  assoc eqb k (filter p l) =
  match assoc eqb k l with
  | Some v => if p (k, v) then Some v else None
  | None => None
  end.
Proof.
  induction l as [|[k' v'] t IH]; simpl; [reflexivity|].
  intros ND. inversion ND as [|? ? Hn ND']; subst.
  destruct (eqb k k') eqn:E.
  - apply eqb_eq in E. subst k'. destruct (p (k, v')) eqn:P; simpl.
    + now rewrite eqb_refl.
    + apply assoc_None. intros H. apply Hn.
      rewrite in_map_iff in H |- *. destruct H as [x [Hx Hi]].
      exists x. split; [exact Hx|]. now apply filter_In in Hi.
  - destruct (p (k', v')); simpl; [rewrite E|]; now apply IH.
Qed.

Lemma assoc_combine_map {V : Type} (f : K -> V) (k : K) (v : V) (l : list K) :
  assoc eqb k (combine l (map f l)) = Some v -> v = f k /\ In k l.
Proof.
  induction l as [|h t IH]; simpl; [discriminate|].
  destruct (eqb k h) eqn:E.
  - intros [= <-]. apply eqb_eq in E. subst. tauto.
  - intros H. destruct (IH H). tauto.
Qed.

Lemma dedup_In (k : K) (l : list K) : In k (dedup eqb l) <-> In k l.
Proof.
  induction l as [|h t IH]; simpl; [tauto|].
  rewrite filter_In, IH. split.
  - tauto.
  - intros [H|H]; [now left|].
    destruct (eqb h k) eqn:E.
    + apply eqb_eq in E. now left.
    + right. tauto.
Qed.

Lemma dedup_NoDup (l : list K) : NoDup (dedup eqb l).
Proof.
  induction l as [|h t IH]; simpl; constructor.
  - rewrite filter_In. intros [_ H]. now rewrite eqb_refl in H.
  - now apply NoDup_filter.
Qed.
End LookupFacts.

Lemma update_nth_length {A : Type} (i : nat) (f : A -> A) (l : list A) :
  length (update_nth i f l) = length l.
Proof.
  revert i. induction l as [|h t IH]; intros [|i]; simpl; auto.
Qed.

Lemma update_nth_same {A : Type} (i : nat) (f : A -> A) (l : list A) :
  nth_error (update_nth i f l) i = option_map f (nth_error l i).
Proof.
  revert i. induction l as [|h t IH]; intros [|i]; simpl; auto.
Qed.

Lemma update_nth_other {A : Type} (i j : nat) (f : A -> A) (l : list A) :
  i <> j -> nth_error (update_nth i f l) j = nth_error l j.
Proof.
  revert i j. induction l as [|h t IH]; intros [|i] [|j] H; simpl; auto.
  congruence.
Qed.

(** ** Equality and order of cells *)

Lemma Qc_eqb_eq (x y : Qc) : Qc_eqb x y = true <-> x = y.
Proof.
  unfold Qc_eqb. rewrite Qeq_bool_iff. split.
  - apply Qc_is_canon.
  - intros ->. reflexivity.
Qed.

Lemma cell_eqb_eq (a b : cell) : cell_eqb a b = true <-> a = b.
Proof.
  destruct a as [|x|s], b as [|y|t]; simpl;
    try (split; [discriminate|congruence]; fail).
  - tauto.
  - rewrite Qc_eqb_eq. split; congruence.
  - rewrite String.eqb_eq. split; congruence.
Qed.

Lemma pair_eqb_eq (a b : cell * cell) : pair_eqb a b = true <-> a = b.
Proof.
  destruct a as [a1 a2], b as [b1 b2]. unfold pair_eqb. simpl.
  rewrite andb_true_iff, !cell_eqb_eq. split; [intros [-> ->]|intros [= -> ->]]; auto.
Qed.

Lemma eq_str_eq (c : cell) (s : string) : eq_str c s = true <-> c = Str s.
Proof.
  destruct c as [|x|t]; simpl; try (split; [discriminate|congruence]; fail).
  rewrite String.eqb_eq. split; congruence.
Qed.

Lemma Qc_leb_le (x y : Qc) : Qc_leb x y = true <-> (x <= y)%Qc.
Proof. unfold Qc_leb, Qcle. apply Qle_bool_iff. Qed.

Lemma Qc_leb_total (x y : Qc) : Qc_leb x y = false -> Qc_leb y x = true.
Proof.
  intros H. apply Qc_leb_le. apply Qclt_le_weak, Qcnot_le_lt.
  intros L. apply Qc_leb_le in L. congruence.
Qed.

Lemma Qc_leb_trans (x y z : Qc) :
  Qc_leb x y = true -> Qc_leb y z = true -> Qc_leb x z = true.
Proof. rewrite !Qc_leb_le. apply Qcle_trans. Qed.

Lemma string_leb_trans (s t u : string) :
  String.leb s t = true -> String.leb t u = true -> String.leb s u = true.
Proof.
  unfold String.leb.
  revert t u. induction s as [|a s IH]; intros [|b t] [|c u]; simpl; auto;
    try discriminate.
  destruct (Ascii.compare a b) eqn:AB; try discriminate;
    destruct (Ascii.compare b c) eqn:BC; try discriminate; intros H1 H2.
  - apply Ascii.compare_eq_iff in AB, BC. subst.
    assert (E : Ascii.compare c c = Eq) by (unfold Ascii.compare; apply N.compare_refl).
    rewrite E. now apply IH with t.
  - apply Ascii.compare_eq_iff in AB. subst. now rewrite BC.
  - apply Ascii.compare_eq_iff in BC. subst. now rewrite AB.
  - assert (E : Ascii.compare a c = Lt); [|now rewrite E].
    unfold Ascii.compare in *. rewrite N.compare_lt_iff in *. lia.
Qed.

Lemma cell_leb_total (a b : cell) : cell_leb a b = false -> cell_leb b a = true.
Proof.
  destruct a as [|x|s], b as [|y|t]; simpl; auto; try discriminate.
  - apply Qc_leb_total.
  - intros H. destruct (String.leb_total s t); congruence.
Qed.

Lemma cell_leb_trans (a b c : cell) :
  cell_leb a b = true -> cell_leb b c = true -> cell_leb a c = true.
Proof.
  destruct a as [|x|s], b as [|y|t], c as [|z|u]; simpl; auto; try discriminate.
  - apply Qc_leb_trans.
  - apply string_leb_trans.
Qed.

(** ** Grouped means *)

Lemma series_mean_numeric (qs : list Qc) :
  qs <> [] ->
  series_mean (map Num qs) = Num (Qc_sum qs / Qc_of_nat (length qs)).
Proof.
  intros H. unfold series_mean.
  assert (E : numeric_values (map Num qs) = qs).
  { clear H. induction qs as [|q t IH]; simpl; [reflexivity|]. now f_equal. }
  rewrite E. destruct qs; [contradiction|reflexivity].
Qed.

Section GroupByFacts.
Context {K : Type}.
Variable key_eqb : K -> K -> bool.
Variable key_leb : K -> K -> bool.
Variable key_isna : K -> bool.
Hypothesis key_eqb_eq : forall a b, key_eqb a b = true <-> a = b.

Lemma factorize_In (k : K) (keys : list K) :
  In k (factorize key_eqb key_leb key_isna keys) <-> key_isna k = false /\ In k keys.
Proof.
  unfold factorize. rewrite isort_In, (dedup_In key_eqb key_eqb_eq), filter_In.
  rewrite negb_true_iff. tauto.
Qed.

Lemma factorize_NoDup (keys : list K) :
  NoDup (factorize key_eqb key_leb key_isna keys).
Proof.
  unfold factorize. eapply Permutation_NoDup; [apply isort_perm|].
  now apply dedup_NoDup.
Qed.

Lemma group_step_length (labels : list K) (acc : list (Qc * nat)) (r : K * cell) :
  length (group_step key_eqb labels acc r) = length acc.
Proof.
  unfold group_step. destruct (index_of key_eqb (fst r) labels); [|reflexivity].
  destruct (snd r); try reflexivity. apply update_nth_length.
Qed.

Lemma group_fold_length (labels : list K) (rows : list (K * cell)) (acc : list (Qc * nat)) :
  length (fold_left (group_step key_eqb labels) rows acc) = length acc.
Proof.
  revert acc. induction rows as [|r t IH]; intros acc; simpl; [reflexivity|].
  now rewrite IH, group_step_length.
Qed.

(** After the pass, the slot of a label holds what it held before plus the
    sum and the count of the numeric values of its rows. *)
Lemma group_fold_slot (labels : list K) (k : K) (i : nat) :
  index_of key_eqb k labels = Some i ->
  forall (rows : list (K * cell)) (acc : list (Qc * nat)) (a : Qc) (n : nat),
  nth_error acc i = Some (a, n) ->
  nth_error (fold_left (group_step key_eqb labels) rows acc) i =
  Some ((a + Qc_sum (group_values key_eqb k rows))%Qc,
        (n + length (group_values key_eqb k rows))%nat).
Proof.
  intros Hi. pose proof (index_of_Some key_eqb key_eqb_eq _ _ _ Hi) as Hk.
  induction rows as [|[k' v] t IH]; intros acc a n Ha; simpl.
  - unfold group_values. simpl. now rewrite Qcplus_0_r, Nat.add_0_r.
  - unfold group_step at 2. simpl fst. simpl snd.
    destruct (key_eqb k k') eqn:E.
    + apply key_eqb_eq in E. subst k'. rewrite Hi.
      unfold group_values. simpl. rewrite (eqb_refl key_eqb key_eqb_eq). simpl.
      destruct v as [|x|s]; simpl.
      * now apply IH.
      * rewrite (IH _ (a + x)%Qc (S n)).
        -- unfold group_values. f_equal. f_equal; [now rewrite Qcplus_assoc|lia].
        -- now rewrite update_nth_same, Ha.
      * now apply IH.
    + assert (Hv : group_values key_eqb k ((k', v) :: t) = group_values key_eqb k t).
      { unfold group_values. simpl. now rewrite E. }
      rewrite Hv. apply IH.
      destruct (index_of key_eqb k' labels) as [j|] eqn:J; [|exact Ha].
      destruct v as [|x|s]; try exact Ha.
      rewrite update_nth_other; [exact Ha|].
      intros ->. apply (index_of_Some key_eqb key_eqb_eq) in J.
      rewrite Hk in J. injection J as ->. now rewrite (eqb_refl key_eqb key_eqb_eq) in E.
Qed.

Lemma group_finish_mean (vs : list Qc) :
  group_finish ((Q2Qc 0 + Qc_sum vs)%Qc, (0 + length vs)%nat) =
  match vs with
  | [] => NaN
  | _ => Num (Qc_sum vs / Qc_of_nat (length vs))
  end.
Proof.
  unfold group_finish. simpl. rewrite Qcplus_0_l. now destruct vs.
Qed.

(** The grouped mean, read by key: the mean of the values of the rows with
    that key, for the keys that occur and are not missing. *)
Lemma groupby_mean_lookup (k : K) (rows : list (K * cell)) :
  assoc key_eqb k (groupby_mean key_eqb key_leb key_isna rows) =
  if existsb (key_eqb k) (factorize key_eqb key_leb key_isna (map fst rows))
  then Some (series_mean (map snd (filter (fun r => key_eqb k (fst r)) rows)))
  else None.
Proof.
  unfold groupby_mean. set (labels := factorize _ _ _ _).
  rewrite (assoc_combine key_eqb).
  2:{ unfold group_sums. now rewrite length_map, group_fold_length, repeat_length. }
  destruct (index_of key_eqb k labels) as [i|] eqn:Hi.
  - pose proof (index_of_Some key_eqb key_eqb_eq _ _ _ Hi) as Hk.
    assert (Hin : existsb (key_eqb k) labels = true).
    { apply (existsb_eqb_In key_eqb key_eqb_eq). eapply nth_error_In, Hk. }
    rewrite Hin, nth_error_map. unfold group_sums.
    rewrite (group_fold_slot labels k i Hi rows _ (Q2Qc 0) 0%nat).
    + simpl option_map. rewrite group_finish_mean. reflexivity.
    + apply nth_error_repeat. apply nth_error_Some. congruence.
  - apply (index_of_None key_eqb key_eqb_eq) in Hi.
    destruct (existsb (key_eqb k) labels) eqn:Hin; [|reflexivity].
    apply (existsb_eqb_In key_eqb key_eqb_eq) in Hin. contradiction.
Qed.

Lemma groupby_mean_keys (rows : list (K * cell)) :
  map fst (groupby_mean key_eqb key_leb key_isna rows) =
  factorize key_eqb key_leb key_isna (map fst rows).
Proof.
  unfold groupby_mean. set (labels := factorize _ _ _ _).
  assert (L : length (map group_finish (group_sums key_eqb labels rows)) = length labels).
  { unfold group_sums. now rewrite length_map, group_fold_length, repeat_length. }
  revert L. generalize (map group_finish (group_sums key_eqb labels rows)).
  induction labels as [|h t IH]; intros [|v vs]; simpl; try discriminate; auto.
  intros [= L]. now rewrite IH.
Qed.
End GroupByFacts.

Lemma groupby_mean_values {K : Type} (key_eqb key_leb : K -> K -> bool)
  (key_isna : K -> bool) (rows : list (K * cell)) :
  Forall (fun e => is_str (snd e) = false) (groupby_mean key_eqb key_leb key_isna rows).
Proof.
  rewrite Forall_forall. intros [k v] H. unfold groupby_mean in H.
  apply in_combine_r in H. apply in_map_iff in H. destruct H as [a [<- _]].
  unfold group_finish. simpl. now destruct (snd a).
Qed.

(** ** Sorting by value *)

Lemma filter_partition_perm {A : Type} (p : A -> bool) (l : list A) :
  Permutation l (filter p l ++ filter (fun a => negb (p a)) l).
Proof.
  induction l as [|a t IH]; simpl; [constructor|].
  destruct (p a); simpl.
  - now constructor.
  - rewrite <- Permutation_middle. now constructor.
Qed.

Lemma sort_values_desc_perm (s : Series) : Permutation s (sort_values_desc s).
Proof.
  unfold sort_values_desc.
  rewrite (filter_partition_perm (fun e => notna (snd e)) s) at 1.
  apply Permutation_app.
  - rewrite <- Permutation_rev, <- isort_perm, <- Permutation_rev. reflexivity.
  - unfold notna. erewrite filter_ext; [reflexivity|].
    intros a. simpl. now rewrite negb_involutive.
Qed.

Lemma sort_values_desc_lookup (k : cell) (s : Series) :
  NoDup (map fst s) ->
  assoc cell_eqb k (sort_values_desc s) = assoc cell_eqb k s.
Proof.
  intros ND. apply (assoc_perm cell_eqb cell_eqb_eq); [exact ND|].
  apply sort_values_desc_perm.
Qed.

Lemma StronglySorted_impl_on {A : Type} (P : A -> Prop) (R R' : A -> A -> Prop)
  (l : list A) :
  (forall a b, P a -> P b -> R a b -> R' a b) ->
  Forall P l -> StronglySorted R l -> StronglySorted R' l.
Proof.
  intros HR F S. induction S as [|h t Hs IH Hh]; [constructor|].
  inversion F as [|? ? Ph Ft]; subst. constructor; [now apply IH|].
  rewrite Forall_forall in *. intros b Hb. apply HR; auto.
Qed.

(** The sorted series is its numeric entries, highest first, then its NaN
    entries. *)
Lemma sort_values_desc_shape (s : Series) :
  Forall (fun e => is_str (snd e) = false) s ->
  exists numeric nans,
    sort_values_desc s = numeric ++ nans /\
    StronglySorted (fun a b => float_ge (snd a) (snd b) = true) numeric /\
    Forall (fun e => exists x, snd e = Num x) numeric /\
    Forall (fun e => snd e = NaN) nans.
Proof.
  intros Hs. unfold sort_values_desc.
  set (nn := filter (fun e => notna (snd e)) s).
  set (srt := isort (fun a b => cell_leb (snd a) (snd b)) (rev nn)).
  exists (rev srt), (filter (fun e => isna (snd e)) s).
  assert (Hnum : forall e, In e srt -> exists x, snd e = Num x).
  { intros e He. apply isort_In, in_rev in He. apply filter_In in He.
    destruct He as [He Hn]. rewrite Forall_forall in Hs. specialize (Hs e He).
    destruct (snd e) as [|x|t]; try discriminate. now exists x. }
  split; [reflexivity|]. split; [|split].
  - apply StronglySorted_impl_on
      with (P := fun e => exists x, snd e = Num x)
           (R := fun a b => cell_leb (snd b) (snd a) = true).
    + intros a b [x Ha] [y Hb]. rewrite Ha, Hb. simpl. auto.
    + rewrite Forall_forall. intros e He. apply Hnum. now apply in_rev.
    + apply StronglySorted_rev
        with (R := fun a b => cell_leb (snd a) (snd b) = true).
      apply isort_sorted.
      * intros a b. apply cell_leb_total.
      * intros a b c. apply cell_leb_trans.
  - rewrite Forall_forall. intros e He. apply Hnum. now apply in_rev.
  - rewrite Forall_forall. intros e He. apply filter_In in He.
    destruct He as [_ He]. now destruct (snd e).
Qed.

(** ** The cleaned frame *)

Section IngestionFacts.
Variable to_float : string -> option Qc.

Lemma preprocess_map (raw : DataFrame) :
  preprocess to_float raw = map (clean to_float) (dropna_subset raw).
Proof. unfold preprocess. now rewrite map_map. Qed.

Lemma preprocess_In (raw : DataFrame) (r : row) :
  In r (preprocess to_float raw) <->
  exists r0, In r0 raw /\
    notna (vote_average r0) = true /\ notna (genre r0) = true /\
    notna (country r0) = true /\ r = clean to_float r0.
Proof.
  rewrite preprocess_map, in_map_iff. unfold dropna_subset.
  split; intros [r0 H]; exists r0.
  - destruct H as [<- H]. apply filter_In in H. rewrite !andb_true_iff in H. tauto.
  - rewrite filter_In, !andb_true_iff. intuition.
Qed.

Lemma to_numeric_coerce_float (c : cell) : is_str (to_numeric_coerce to_float c) = false.
Proof. destruct c as [|x|s]; simpl; auto. now destruct (to_float s). Qed.

Lemma replace_notna (m : list (string * string)) (c : cell) :
  notna (replace m c) = notna c.
Proof. destruct c as [|x|s]; simpl; auto. now destruct (assoc String.eqb s m). Qed.

Lemma replace_country_names (c : cell) :
  replace country_names c <> Str "United States" /\
  replace country_names c <> Str "United Kingdom".
Proof.
  destruct c as [|x|s]; simpl; try (split; discriminate).
  destruct (String.eqb s "United States") eqn:E1; [split; discriminate|].
  destruct (String.eqb s "United Kingdom") eqn:E2; [split; discriminate|].
  apply String.eqb_neq in E1, E2. split; congruence.
Qed.

Lemma preprocess_float (raw : DataFrame) :
  Forall (fun r => is_str (vote_average r) = false) (preprocess to_float raw).
Proof.
  rewrite Forall_forall. intros r H. apply preprocess_In in H.
  destruct H as [r0 (_ & _ & _ & _ & ->)]. apply to_numeric_coerce_float.
Qed.

Lemma preprocess_keys (raw : DataFrame) :
  Forall (fun r => notna (genre r) = true /\ notna (country r) = true)
         (preprocess to_float raw).
Proof.
  rewrite Forall_forall. intros r H. apply preprocess_In in H.
  destruct H as [r0 (_ & _ & G & C & ->)]. simpl. now rewrite replace_notna.
Qed.
End IngestionFacts.

(** ** The rows a request keeps *)

Lemma filter_rows_In (genre_arg country_arg : option string) (df : DataFrame) (r : row) :
  In r (filter_rows genre_arg country_arg df) <->
  In r df /\
  (forall g, genre_arg = Some g -> g <> "" -> genre r = Str g) /\
  (forall c, country_arg = Some c -> c <> "" -> country r = Str c).
Proof.
  unfold filter_rows.
  assert (T : forall s, truthy (Some s) = true <-> s <> "").
  { intros s. simpl. rewrite negb_true_iff. apply String.eqb_neq. }
  assert (F : forall s, truthy (Some s) = false -> s = "").
  { intros s. simpl. rewrite negb_false_iff. apply String.eqb_eq. }
  destruct genre_arg as [g|], country_arg as [c|];
    try destruct (truthy (Some g)) eqn:Tg; try destruct (truthy (Some c)) eqn:Tc;
    rewrite ?filter_In, ?eq_str_eq;
    try apply T in Tg; try apply T in Tc; try apply F in Tg; try apply F in Tc;
    split; intros H; repeat split; try tauto;
    try (intros ? [= <-] ?); try tauto; try discriminate;
    try (destruct H as (? & Hg & Hc); try apply Hg; try apply Hc; auto; fail).
Qed.

Lemma filter_rows_incl (genre_arg country_arg : option string) (df : DataFrame) :
  incl (filter_rows genre_arg country_arg df) df.
Proof. intros r H. now apply filter_rows_In in H. Qed.

Lemma Forall_incl {A : Type} (P : A -> Prop) (l l' : list A) :
  incl l l' -> Forall P l' -> Forall P l.
Proof. rewrite !Forall_forall. intros I H x Hx. apply H, I, Hx. Qed.

Lemma analyze_ratings_float (df : DataFrame) :
  Forall (fun r => is_str (vote_average r) = false) df ->
  analyze_ratings df = inr (mean_by genre df, mean_by country df, pivot_table df).
Proof.
  intros H. unfold analyze_ratings.
  destruct (existsb (fun r => is_str (vote_average r)) df) eqn:E; [|reflexivity].
  apply existsb_exists in E. destruct E as [r [Hr E]].
  rewrite Forall_forall in H. rewrite (H r Hr) in E. discriminate.
Qed.

(** ** The tables of [analyze_ratings] *)

Lemma bool_eq_iff (a b : bool) : (a = true <-> b = true) -> a = b.
Proof. destruct a, b; intuition congruence. Qed.

Lemma keyed_filter {K : Type} (key_eqb : K -> K -> bool) (key : row -> K) (k : K)
  (df : DataFrame) :
  map snd (filter (fun p => key_eqb k (fst p)) (map (fun r => (key r, vote_average r)) df))
  = map vote_average (filter (fun r => key_eqb k (key r)) df).
Proof.
  induction df as [|r t IH]; simpl; [reflexivity|].
  destruct (key_eqb k (key r)); simpl; now rewrite IH.
Qed.

(** A table of means by one key column, read by key. *)
Lemma mean_by_lookup (key : row -> cell) (df : DataFrame) (k : cell) :
  Forall (fun r => notna (key r) = true) df ->
  assoc cell_eqb k (mean_by key df) =
  if existsb (fun r => cell_eqb k (key r)) df
  then Some (series_mean (map vote_average (filter (fun r => cell_eqb k (key r)) df)))
  else None.
Proof.
  intros Hk. unfold mean_by.
  rewrite sort_values_desc_lookup.
  2:{ rewrite (groupby_mean_keys cell_eqb). apply (factorize_NoDup cell_eqb), cell_eqb_eq. }
  rewrite (groupby_mean_lookup cell_eqb cell_leb isna cell_eqb_eq), keyed_filter.
  replace (existsb (cell_eqb k) _) with (existsb (fun r => cell_eqb k (key r)) df);
    [reflexivity|].
  apply bool_eq_iff.
  rewrite (existsb_eqb_In cell_eqb cell_eqb_eq), (factorize_In cell_eqb cell_leb isna cell_eqb_eq).
  rewrite map_map, existsb_exists. simpl. split.
  - intros [r [Hr E]]. apply cell_eqb_eq in E. subst k. split.
    + rewrite Forall_forall in Hk. specialize (Hk r Hr). unfold notna in Hk.
      now apply negb_true_iff in Hk.
    + now apply in_map.
  - intros [_ H]. apply in_map_iff in H. destruct H as [r [<- Hr]].
    exists r. split; [exact Hr|]. now apply cell_eqb_eq.
Qed.

Lemma mean_by_keys_NoDup (key : row -> cell) (df : DataFrame) :
  NoDup (map fst (mean_by key df)).
Proof.
  unfold mean_by. eapply Permutation_NoDup.
  - apply Permutation_map, sort_values_desc_perm.
  - rewrite (groupby_mean_keys cell_eqb). apply (factorize_NoDup cell_eqb), cell_eqb_eq.
Qed.

Lemma pair_filter (g c : cell) (df : DataFrame) :
  map snd (filter (fun p => pair_eqb (g, c) (fst p))
             (map (fun r => ((genre r, country r), vote_average r)) df))
  = map vote_average
      (filter (fun r => cell_eqb g (genre r) && cell_eqb c (country r)) df).
Proof.
  induction df as [|r t IH]; simpl; [reflexivity|].
  unfold pair_eqb at 1. simpl.
  destruct (cell_eqb g (genre r) && cell_eqb c (country r)); simpl; now rewrite IH.
Qed.

Lemma series_mean_notna (xs : list cell) :
  notna (series_mean xs) = false -> series_mean xs = NaN.
Proof. now destruct (series_mean xs). Qed.

(** The means by (genre, country) that [pivot_table] keeps, read by key. *)
Lemma pivot_agged_lookup (df : DataFrame) (g c : cell) :
  isna g = false -> isna c = false ->
  match assoc pair_eqb (g, c)
          (filter (fun e => notna (snd e))
             (groupby_mean pair_eqb pair_leb pair_isna
                (map (fun r => ((genre r, country r), vote_average r)) df))) with
  | Some v => v
  | None => NaN
  end
  = series_mean (map vote_average
      (filter (fun r => cell_eqb g (genre r) && cell_eqb c (country r)) df)).
Proof.
  intros Hg Hc. set (rows := map _ df).
  rewrite (assoc_filter pair_eqb pair_eqb_eq).
  2:{ rewrite (groupby_mean_keys pair_eqb). apply (factorize_NoDup pair_eqb), pair_eqb_eq. }
  rewrite (groupby_mean_lookup pair_eqb pair_leb pair_isna pair_eqb_eq).
  unfold rows. rewrite pair_filter.
  destruct (existsb _ _) eqn:E.
  - simpl snd. destruct (notna (series_mean _)) eqn:N; [reflexivity|].
    symmetry. now apply series_mean_notna.
  - assert (H : filter (fun r => cell_eqb g (genre r) && cell_eqb c (country r)) df = []).
    { destruct (filter _ df) as [|r t] eqn:F; [reflexivity|]. exfalso.
      assert (Hr : In r (filter (fun r => cell_eqb g (genre r) && cell_eqb c (country r)) df))
        by (rewrite F; now left).
      apply filter_In in Hr. destruct Hr as [Hr Hm].
      apply andb_true_iff in Hm. destruct Hm as [Hm1 Hm2].
      apply cell_eqb_eq in Hm1, Hm2.
      assert (X : existsb (pair_eqb (g, c))
                    (factorize pair_eqb pair_leb pair_isna
                       (map fst (map (fun r => ((genre r, country r), vote_average r)) df)))
                  = true).
      { apply (existsb_eqb_In pair_eqb pair_eqb_eq).
        apply (factorize_In pair_eqb pair_leb pair_isna pair_eqb_eq). split.
        - unfold pair_isna. simpl. now rewrite Hg, Hc.
        - rewrite map_map. simpl. apply in_map_iff. exists r. split; [|exact Hr].
          now rewrite <- Hm1, <- Hm2. }
      congruence. }
    rewrite H. reflexivity.
Qed.

(** An entry of the pivot table, read by column and row label. *)
Lemma pivot_table_entry (df : DataFrame) (c g v : cell) (col : list (cell * cell)) :
  assoc cell_eqb c (pivot_to_dict (pivot_table df)) = Some col ->
  assoc cell_eqb g col = Some v ->
  v = series_mean (map vote_average
        (filter (fun r => cell_eqb g (genre r) && cell_eqb c (country r)) df)).
Proof.
  intros Hc Hg. apply (assoc_In cell_eqb cell_eqb_eq) in Hc.
  unfold pivot_to_dict in Hc. apply in_map_iff in Hc.
  destruct Hc as [[c0 vs] [E Hin]]. simpl in E. injection E as -> <-.
  unfold pivot_table in Hin. simpl p_columns in Hin. simpl p_index in Hg.
  apply filter_In in Hin. destruct Hin as [Hin _].
  apply in_map_iff in Hin. destruct Hin as [c1 [E Hc1]]. injection E as -> <-.
  apply (assoc_combine_map cell_eqb cell_eqb_eq) in Hg. destruct Hg as [-> Hg].
  apply (factorize_In cell_eqb cell_leb isna cell_eqb_eq) in Hg, Hc1.
  apply pivot_agged_lookup; tauto.
Qed.

Lemma assoc_map_keys {V : Type} (G : cell -> V) (k : cell) (l : list cell) :
  In k l -> assoc cell_eqb k (map (fun c => (c, G c)) l) = Some (G k).
Proof.
  induction l as [|h t IH]; simpl; [tauto|].
  destruct (cell_eqb k h) eqn:E.
  - apply cell_eqb_eq in E. now subst.
  - intros [H|H]; [|now apply IH]. subst. now rewrite (eqb_refl cell_eqb cell_eqb_eq) in E.
Qed.

Lemma assoc_combine_map_In {V : Type} (f : cell -> V) (k : cell) (l : list cell) :
  In k l -> assoc cell_eqb k (combine l (map f l)) = Some (f k).
Proof.
  induction l as [|h t IH]; simpl; [tauto|].
  destruct (cell_eqb k h) eqn:E.
  - apply cell_eqb_eq in E. now subst.
  - intros [H|H]; [|now apply IH]. subst. now rewrite (eqb_refl cell_eqb cell_eqb_eq) in E.
Qed.

Lemma pivot_to_dict_columns (index columns : list cell) (f : cell -> cell -> cell) :
  pivot_to_dict
    (mkPivot index
       (filter (fun col => existsb notna (snd col))
          (map (fun c => (c, map (f c) index)) columns)))
  = map (fun c => (c, combine index (map (f c) index)))
        (filter (fun c => existsb notna (map (f c) index)) columns).
Proof.
  unfold pivot_to_dict. simpl.
  induction columns as [|c t IH]; simpl; [reflexivity|].
  destruct (existsb notna (map (f c) index)); simpl; now rewrite IH.
Qed.

(** A (genre, country) pair that has a rated row has its entry in the pivot
    table. *)
Lemma pivot_table_has_entry (df : DataFrame) (r : row) (x : Qc) :
  In r df -> vote_average r = Num x ->
  isna (genre r) = false -> isna (country r) = false ->
  exists col v,
    assoc cell_eqb (country r) (pivot_to_dict (pivot_table df)) = Some col /\
    assoc cell_eqb (genre r) col = Some v.
Proof.
  intros Hr Hx Hg Hc. unfold pivot_table.
  set (agged := filter _ (groupby_mean pair_eqb pair_leb pair_isna _)).
  set (index := factorize cell_eqb cell_leb isna (map (fun e => fst (fst e)) agged)).
  set (columns := factorize cell_eqb cell_leb isna (map (fun e => snd (fst e)) agged)).
  set (f := fun c g => match assoc pair_eqb (g, c) agged with Some v => v | None => NaN end).
  change (map _ columns) with (map (fun c => (c, map (f c) index)) columns).
  rewrite pivot_to_dict_columns.
  set (M := map vote_average
              (filter (fun r' => cell_eqb (genre r) (genre r') && cell_eqb (country r) (country r')) df)).
  assert (Hm : exists y, series_mean M = Num y).
  { unfold series_mean. destruct (numeric_values M) as [|y ys] eqn:E; [|eauto].
    exfalso. assert (Hin : In x (numeric_values M)); [|now rewrite E in Hin].
    unfold numeric_values. apply in_flat_map. exists (Num x). split; [|now left].
    unfold M. rewrite <- Hx. apply in_map. apply filter_In. split; [exact Hr|].
    now rewrite !(eqb_refl cell_eqb cell_eqb_eq). }
  destruct Hm as [y Hy].
  assert (Hf : f (country r) (genre r) = Num y).
  { unfold f, agged. rewrite pivot_agged_lookup by assumption. exact Hy. }
  assert (Hin : In ((genre r, country r), Num y) agged).
  { unfold f in Hf. destruct (assoc pair_eqb (genre r, country r) agged) as [v|] eqn:E;
      [|discriminate]. subst v. now apply (assoc_In pair_eqb pair_eqb_eq). }
  assert (Hgi : In (genre r) index).
  { apply (factorize_In cell_eqb cell_leb isna cell_eqb_eq). split; [exact Hg|].
    apply in_map_iff. now exists ((genre r, country r), Num y). }
  assert (Hci : In (country r) columns).
  { apply (factorize_In cell_eqb cell_leb isna cell_eqb_eq). split; [exact Hc|].
    apply in_map_iff. now exists ((genre r, country r), Num y). }
  exists (combine index (map (f (country r)) index)), (f (country r) (genre r)).
  split.
  - apply (assoc_map_keys (fun c => combine index (map (f c) index))).
    apply filter_In. split; [exact Hci|].
    apply existsb_exists. exists (f (country r) (genre r)). split.
    + now apply in_map.
    + now rewrite Hf.
  - now apply assoc_combine_map_In.
Qed.

(** When the rows of a key all have a numeric rating, its mean is their sum
    over their number. *)
Lemma mean_by_plain (key : row -> cell) (df : DataFrame) (k : cell) (qs : list Qc) :
  Forall (fun r => notna (key r) = true) df ->
  qs <> [] ->
  map vote_average (filter (fun r => cell_eqb k (key r)) df) = map Num qs ->
  assoc cell_eqb k (mean_by key df) = Some (Num (Qc_sum qs / Qc_of_nat (length qs))).
Proof.
  intros Hk Hq E. rewrite (mean_by_lookup key df k Hk), E, (series_mean_numeric qs Hq).
  destruct (existsb (fun r => cell_eqb k (key r)) df) eqn:X; [reflexivity|].
  exfalso. destruct (filter (fun r => cell_eqb k (key r)) df) as [|r t] eqn:F.
  - destruct qs; [contradiction|discriminate].
  - assert (Hr : In r (filter (fun r => cell_eqb k (key r)) df)) by (rewrite F; now left).
    apply filter_In in Hr. destruct Hr as [Hr Hm].
    assert (Y : existsb (fun r => cell_eqb k (key r)) df = true)
      by (apply existsb_exists; now exists r).
    congruence.
Qed.

(** C1.  For every table read from the CSV file and every submitted genre
    and country, the rows the handler retains are the cleaned rows that match
    the non-empty fields, and on them [analyze_ratings] returns: a genre
    table that maps exactly the genres of the retained rows, each to the mean
    of [vote_average] over the retained rows of that genre; a country table
    likewise; and a pivot table whose entry (g, c) is the mean over the
    retained rows of genre g and country c, with an entry for every pair that
    has a rated row.  The mean is that of [Series.mean]: the sum of the
    numeric values divided by their count (NaN when there is none); for a
    genre or country whose retained rows all have a numeric rating it is the
    sum of the ratings of these rows divided by their number. *)
Theorem analyze_tables_are_group_means
  (to_float : string -> option Qc) (raw : DataFrame)
  (genre_arg country_arg : option string) :
  let retained := filter_rows genre_arg country_arg (preprocess to_float raw) in
  (forall r, In r retained <->
     In r (preprocess to_float raw) /\
     (forall g, genre_arg = Some g -> g <> "" -> genre r = Str g) /\
     (forall c, country_arg = Some c -> c <> "" -> country r = Str c)) /\
  exists genre_ratings country_ratings genre_country_ratings,
    analyze_ratings retained
    = inr (genre_ratings, country_ratings, genre_country_ratings) /\
    (forall g,
       assoc cell_eqb g (to_dict genre_ratings) =
       if existsb (fun r => cell_eqb g (genre r)) retained
       then Some (series_mean
                    (map vote_average (filter (fun r => cell_eqb g (genre r)) retained)))
       else None) /\
    (forall c,
       assoc cell_eqb c (to_dict country_ratings) =
       if existsb (fun r => cell_eqb c (country r)) retained
       then Some (series_mean
                    (map vote_average (filter (fun r => cell_eqb c (country r)) retained)))
       else None) /\
    (forall c col g v,
       assoc cell_eqb c (pivot_to_dict genre_country_ratings) = Some col ->
       assoc cell_eqb g col = Some v ->
       v = series_mean
             (map vote_average
                (filter (fun r => cell_eqb g (genre r) && cell_eqb c (country r))
                        retained))) /\
    (forall r x, In r retained -> vote_average r = Num x ->
       exists col v,
         assoc cell_eqb (country r) (pivot_to_dict genre_country_ratings) = Some col /\
         assoc cell_eqb (genre r) col = Some v) /\
    (forall g qs, qs <> [] ->
       map vote_average (filter (fun r => cell_eqb g (genre r)) retained) = map Num qs ->
       assoc cell_eqb g (to_dict genre_ratings)
       = Some (Num (Qc_sum qs / Qc_of_nat (length qs)))) /\
    (forall c qs, qs <> [] ->
       map vote_average (filter (fun r => cell_eqb c (country r)) retained) = map Num qs ->
       assoc cell_eqb c (to_dict country_ratings)
       = Some (Num (Qc_sum qs / Qc_of_nat (length qs)))).
Proof.
  intros retained.
  assert (Hkeys : Forall (fun r => notna (genre r) = true /\ notna (country r) = true) retained).
  { eapply Forall_incl; [apply filter_rows_incl|apply preprocess_keys]. }
  assert (Hfloat : Forall (fun r => is_str (vote_average r) = false) retained).
  { eapply Forall_incl; [apply filter_rows_incl|apply preprocess_float]. }
  split; [intros r; apply filter_rows_In|].
  exists (mean_by genre retained), (mean_by country retained), (pivot_table retained).
  split; [now apply analyze_ratings_float|].
  assert (Hg : Forall (fun r => notna (genre r) = true) retained).
  { eapply Forall_impl; [|exact Hkeys]. now intros ? [? ?]. }
  assert (Hc : Forall (fun r => notna (country r) = true) retained).
  { eapply Forall_impl; [|exact Hkeys]. now intros ? [? ?]. }
  split; [|split; [|split; [|split; [|split]]]].
  - intros g. now apply mean_by_lookup.
  - intros c. now apply mean_by_lookup.
  - intros c col g v. apply pivot_table_entry.
  - intros r x Hr Hx. rewrite Forall_forall in Hkeys. destruct (Hkeys r Hr) as [G C].
    unfold notna in G, C. apply negb_true_iff in G, C.
    now apply pivot_table_has_entry with x.
  - intros g qs. now apply mean_by_plain.
  - intros c qs. now apply mean_by_plain.
Qed.

(** ** C2: what loading drops and what it keeps *)

(** C2.  What loading does, which is less than dropping every malformed
    row: line 12 drops the rows with a missing value before line 14 coerces
    the ratings, so the NaN that the coercion produces are never dropped.
    Every row of the cleaned frame has a present genre and a present
    country, and a [vote_average] that is a number or NaN, never text.  The
    cleaned rows are exactly the images of the rows of the table without a
    missing value in the three columns: a row with a missing value is
    dropped, but a row whose rating is text that is not a number is kept,
    with NaN for its rating. *)
Theorem preprocess_drops_missing_keeps_coerced
  (to_float : string -> option Qc) (raw : DataFrame) :
  Forall (fun r => notna (genre r) = true /\ notna (country r) = true /\
                   is_str (vote_average r) = false)
         (preprocess to_float raw) /\
  (forall r, In r (preprocess to_float raw) <->
     exists r0, In r0 raw /\
       notna (vote_average r0) = true /\ notna (genre r0) = true /\
       notna (country r0) = true /\ r = clean to_float r0) /\
  (forall r0 s, In r0 raw -> vote_average r0 = Str s -> to_float s = None ->
     notna (genre r0) = true -> notna (country r0) = true ->
     In (mkRow NaN (genre r0) (replace country_names (country r0)))
        (preprocess to_float raw)).
Proof.
  split; [|split].
  - pose proof (preprocess_keys to_float raw) as K.
    pose proof (preprocess_float to_float raw) as F.
    rewrite Forall_forall in *. intros r Hr.
    destruct (K r Hr). specialize (F r Hr). tauto.
  - apply preprocess_In.
  - intros r0 s Hr Hv Hs Hg Hc. apply preprocess_In. exists r0.
    unfold clean. rewrite Hv. simpl. rewrite Hs. tauto.
Qed.

(** The failing input: a table with one row whose rating is the text
    [unrated].  The row stays in the cleaned frame, with NaN for its
    rating. *)
Lemma preprocess_keeps_unparsed_rating :
  exists r,
    In r (preprocess parse_decimal [mkRow (Str "unrated") (Str "Drama") (Str "USA")]) /\
    vote_average r = NaN.
Proof.
  exists (mkRow NaN (Str "Drama") (Str "USA")). split; [|reflexivity].
  vm_compute. left. reflexivity.
Qed.

Lemma preprocess_drops_missing_keeps_coerced_witness :
  In (mkRow NaN (Str "Drama") (replace country_names (Str "United States")))
     (preprocess parse_decimal
        [mkRow (Str "8.5") (Str "Action") (Str "UK");
         mkRow (Str "unrated") (Str "Drama") (Str "United States")]).
Proof.
  apply (proj2 (proj2 (preprocess_drops_missing_keeps_coerced parse_decimal
           [mkRow (Str "8.5") (Str "Action") (Str "UK");
            mkRow (Str "unrated") (Str "Drama") (Str "United States")]))
         (mkRow (Str "unrated") (Str "Drama") (Str "United States")) "unrated").
  - simpl. right. left. reflexivity.
  - reflexivity.
  - vm_compute. reflexivity.
  - reflexivity.
  - reflexivity.
Defined.

(** ** C8: country names *)

Lemma filter_nil_of_none {A : Type} (p : A -> bool) (l : list A) :
  Forall (fun a => p a = false) l -> filter p l = [].
Proof.
  induction 1 as [|a t Ha _ IH]; simpl; [reflexivity|]. now rewrite Ha.
Qed.

(** C8.  No row of the cleaned frame has the country [United States] or
    [United Kingdom]; so a request with the country [United States] retains
    no row, whatever its genre, and its three tables are empty. *)
Theorem country_names_normalized
  (to_float : string -> option Qc) (raw : DataFrame) :
  Forall (fun r => country r <> Str "United States" /\
                   country r <> Str "United Kingdom")
         (preprocess to_float raw) /\
  (forall genre_arg,
     filter_rows genre_arg (Some "United States") (preprocess to_float raw) = [] /\
     analyze_ratings
       (filter_rows genre_arg (Some "United States") (preprocess to_float raw))
     = inr ([], [], mkPivot [] [])).
Proof.
  assert (H : Forall (fun r => country r <> Str "United States" /\
                               country r <> Str "United Kingdom")
                     (preprocess to_float raw)).
  { rewrite Forall_forall. intros r Hr. apply preprocess_In in Hr.
    destruct Hr as [r0 (_ & _ & _ & _ & ->)]. simpl. apply replace_country_names. }
  split; [exact H|]. intros genre_arg.
  assert (E : filter_rows genre_arg (Some "United States") (preprocess to_float raw) = []).
  { destruct (filter_rows genre_arg (Some "United States") (preprocess to_float raw))
      as [|r t] eqn:F; [reflexivity|]. exfalso.
    assert (Hr : In r (filter_rows genre_arg (Some "United States") (preprocess to_float raw)))
      by (rewrite F; now left).
    apply filter_rows_In in Hr. destruct Hr as (Hr & _ & Hc).
    rewrite Forall_forall in H. destruct (H r Hr) as [N _]. apply N.
    apply Hc; [reflexivity|discriminate]. }
  rewrite E. split; reflexivity.
Qed.

(** ** C9: the order of the tables *)

Lemma StronglySorted_consecutive (s : Series) :
  StronglySorted (fun a b => float_ge (snd a) (snd b) = true) s ->
  consecutive_ge s = true.
Proof.
  induction 1 as [|a t Hs IH Ha]; [reflexivity|].
  destruct t as [|b t']; [reflexivity|].
  simpl. inversion Ha; subst. simpl in IH. rewrite IH. now rewrite andb_true_r.
Qed.

Lemma mean_by_sorted (key : row -> cell) (df : DataFrame) :
  sorted_desc_nan_last (mean_by key df).
Proof.
  unfold mean_by.
  destruct (sort_values_desc_shape _ (groupby_mean_values cell_eqb cell_leb isna
              (map (fun r => (key r, vote_average r)) df)))
    as (numeric & nans & E & S & N & M).
  exists numeric, nans. repeat split; auto. now apply StronglySorted_consecutive.
Qed.

(** C9, in the form that the code satisfies.  In the genre table and in
    the country table that [analyze_ratings] returns, the entries with a
    numeric mean come first, any earlier one greater than or equal to any
    later one, and the entries whose mean is NaN (groups without a numeric
    rating) come last. *)
Theorem analyze_ratings_sorted (df : DataFrame)
  (genre_ratings country_ratings : Series) (genre_country_ratings : Pivot) :
  analyze_ratings df = inr (genre_ratings, country_ratings, genre_country_ratings) ->
  sorted_desc_nan_last genre_ratings /\ sorted_desc_nan_last country_ratings.
Proof.
  unfold analyze_ratings.
  destruct (existsb (fun r => is_str (vote_average r)) df); [discriminate|].
  intros [= <- <- _]. split; apply mean_by_sorted.
Qed.

Lemma analyze_ratings_sorted_witness :
  sorted_desc_nan_last (mean_by genre (preprocess parse_decimal two_genres)) /\
  sorted_desc_nan_last (mean_by country (preprocess parse_decimal two_genres)).
Proof.
  apply (analyze_ratings_sorted (preprocess parse_decimal two_genres) _ _
           (pivot_table (preprocess parse_decimal two_genres))).
  reflexivity.
Defined.

(** The cleaned frame of [two_genres] has the genre Comedy without any
    numeric rating: the genre table ends with a NaN mean, and the mean
    before it is not [>=] NaN. *)
Lemma analyze_ratings_nan_breaks_order :
  exists genre_ratings country_ratings genre_country_ratings,
    analyze_ratings (preprocess parse_decimal two_genres)
    = inr (genre_ratings, country_ratings, genre_country_ratings) /\
    map fst genre_ratings = [Str "Drama"; Str "Comedy"] /\
    map snd genre_ratings = [Num (Q2Qc (17 # 2)); NaN] /\
    consecutive_ge genre_ratings = false.
Proof.
  eexists _, _, _. split; [reflexivity|].
  repeat split; vm_compute; reflexivity.
Qed.

(** ** The handlers and the file system *)

Section Observation.
Context {X : Type}.
Variable V : world -> X.

Lemma respects_ret {A : Type} (a : A) : respects V (ret a).
Proof. intros w w' H. now split. Qed.

Lemma respects_raise {A : Type} (e : exn) : respects V (@raise A e).
Proof. intros w w' H. now split. Qed.

Lemma respects_lift {A : Type} (r : exn + A) : respects V (lift r).
Proof. destruct r; [apply respects_raise|apply respects_ret]. Qed.

Lemma respects_bind {A B : Type} (c : py A) (k : A -> py B) :
  respects V c -> (forall a, respects V (k a)) -> respects V (bind c k).
Proof.
  intros Hc Hk w w' H. unfold bind. destruct (Hc w w' H) as [R W].
  destruct (c w) as [a w1|e w1], (c w') as [a' w1'|e' w1']; simpl in R, W;
    try discriminate.
  - injection R as <-. now apply Hk.
  - injection R as <-. now split.
Qed.

Lemma preserves_ret {A : Type} (a : A) : preserves V (ret a).
Proof. intros w. reflexivity. Qed.

Lemma preserves_raise {A : Type} (e : exn) : preserves V (@raise A e).
Proof. intros w. reflexivity. Qed.

Lemma preserves_lift {A : Type} (r : exn + A) : preserves V (lift r).
Proof. destruct r; [apply preserves_raise|apply preserves_ret]. Qed.

Lemma preserves_bind {A B : Type} (c : py A) (k : A -> py B) :
  preserves V c -> (forall a, preserves V (k a)) -> preserves V (bind c k).
Proof.
  intros Hc Hk w. unfold bind. specialize (Hc w).
  destruct (c w) as [a w1|e w1]; simpl in Hc.
  - now rewrite Hk.
  - exact Hc.
Qed.
End Observation.

Lemma write_other (p q : string) (n : node) (w : world) :
  String.eqb q p = false -> write p n w q = w q.
Proof. intros H. unfold write. now rewrite H. Qed.

Lemma observed_of_exactly (w w' : world) :
  observed_exactly w = observed_exactly w' -> observed w = observed w'.
Proof.
  unfold observed_exactly, observed, static_usable. intros [= C S]. now rewrite C, S.
Qed.

Lemma read_csv_respects {X : Type} (V : world -> X) :
  (forall w w', V w = V w' -> w csv_path = w' csv_path) ->
  respects V (pd_read_csv csv_path).
Proof.
  intros HV w w' H. unfold pd_read_csv. rewrite <- (HV w w' H).
  destruct (w csv_path) as [[| | |]|]; now split.
Qed.

Lemma read_csv_preserves {X : Type} (V : world -> X) (path : string) :
  preserves V (pd_read_csv path).
Proof.
  intros w. unfold pd_read_csv. now destruct (w path) as [[| | |]|].
Qed.

(** Saving a figure under [static] reads only the state of [static], and
    writes neither [static] nor the CSV file. *)
Lemma savefig_respects (p : string) (f : figure) :
  dirname p = "static" -> String.eqb "static" p = false ->
  String.eqb csv_path p = false ->
  respects observed_exactly (plt_savefig p f).
Proof.
  intros D S C w w' H. unfold plt_savefig. rewrite D.
  injection H as Hc Hs. unfold static_state in Hs.
  destruct (w "static") as [[| | |]|] eqn:E, (w' "static") as [[| | |]|] eqn:E';
    try discriminate; simpl; split; try reflexivity;
    unfold observed_exactly, static_state; rewrite ?write_other by assumption;
    now rewrite ?E, ?E', ?Hc.
Qed.

Lemma savefig_preserves (p : string) (f : figure) :
  String.eqb "static" p = false -> String.eqb csv_path p = false ->
  preserves observed_exactly (plt_savefig p f).
Proof.
  intros S C w. unfold plt_savefig.
  destruct (w (dirname p)) as [[| | |]|]; simpl; try reflexivity.
  unfold observed_exactly, static_state. now rewrite !write_other by assumption.
Qed.

Section HandlerFacts.
Variable to_float : string -> option Qc.
Variable draw_error : figure -> option exn.

Lemma draw_respects {X : Type} (V : world -> X) (f : figure) :
  respects V (draw draw_error f).
Proof. unfold draw. destruct (draw_error f); [apply respects_raise|apply respects_ret]. Qed.

Lemma draw_preserves {X : Type} (V : world -> X) (f : figure) :
  preserves V (draw draw_error f).
Proof. unfold draw. destruct (draw_error f); [apply preserves_raise|apply preserves_ret]. Qed.

Lemma mean_by_checked_respects {X : Type} (V : world -> X) key df :
  respects V (mean_by_checked key df).
Proof.
  unfold mean_by_checked. destruct (existsb _ df); [apply respects_raise|apply respects_ret].
Qed.

Lemma mean_by_checked_preserves {X : Type} (V : world -> X) key df :
  preserves V (mean_by_checked key df).
Proof.
  unfold mean_by_checked. destruct (existsb _ df); [apply preserves_raise|apply preserves_ret].
Qed.

Lemma pivot_table_checked_respects {X : Type} (V : world -> X) df :
  respects V (pivot_table_checked df).
Proof.
  unfold pivot_table_checked. destruct (existsb _ df); [apply respects_raise|apply respects_ret].
Qed.

Lemma pivot_table_checked_preserves {X : Type} (V : world -> X) df :
  preserves V (pivot_table_checked df).
Proof.
  unfold pivot_table_checked. destruct (existsb _ df); [apply preserves_raise|apply preserves_ret].
Qed.

Lemma draw_and_save_respects (df : DataFrame) :
  respects observed_exactly (draw_and_save draw_error df).
Proof.
  unfold draw_and_save.
  repeat first
    [ apply respects_bind; [|intros ?]
    | apply mean_by_checked_respects
    | apply pivot_table_checked_respects
    | apply draw_respects
    | apply savefig_respects; reflexivity ].
Qed.

Lemma draw_and_save_preserves (df : DataFrame) :
  preserves observed_exactly (draw_and_save draw_error df).
Proof.
  unfold draw_and_save.
  repeat first
    [ apply preserves_bind; [|intros ?]
    | apply mean_by_checked_preserves
    | apply pivot_table_checked_preserves
    | apply draw_preserves
    | apply savefig_preserves; reflexivity ].
Qed.

Lemma generate_plots_unfold (df : DataFrame) (w : world) :
  generate_plots draw_error df "static" w = draw_and_save draw_error df (ensure_static w).
Proof.
  unfold generate_plots, ensure_static, bind at 1, os_path_exists.
  destruct (w "static"); reflexivity.
Qed.

Lemma ensure_static_observed (w w' : world) :
  observed w = observed w' ->
  observed_exactly (ensure_static w) = observed_exactly (ensure_static w').
Proof.
  unfold observed, observed_exactly, static_usable, static_state, ensure_static.
  intros [= C S].
  destruct (w "static") as [[| | |]|] eqn:E, (w' "static") as [[| | |]|] eqn:E';
    try discriminate; unfold write; simpl; rewrite ?E, ?E', ?C; reflexivity.
Qed.

Lemma ensure_static_same (w : world) : observed (ensure_static w) = observed w.
Proof.
  unfold observed, static_usable, static_state, ensure_static.
  destruct (w "static") as [[| | |]|] eqn:E; unfold write; simpl; rewrite ?E; reflexivity.
Qed.

Lemma generate_plots_respects (df : DataFrame) :
  respects observed (generate_plots draw_error df "static").
Proof.
  intros w w' H. rewrite !generate_plots_unfold.
  destruct (draw_and_save_respects df _ _ (ensure_static_observed w w' H)) as [R W].
  split; [exact R|]. now apply observed_of_exactly.
Qed.

Lemma generate_plots_preserves (df : DataFrame) :
  preserves observed (generate_plots draw_error df "static").
Proof.
  intros w. rewrite generate_plots_unfold, <- (ensure_static_same w).
  apply observed_of_exactly, draw_and_save_preserves.
Qed.

Lemma load_respects : respects observed (load_and_preprocess_data to_float csv_path).
Proof.
  unfold load_and_preprocess_data.
  apply respects_bind; [|intros ?; apply respects_ret].
  apply read_csv_respects. now intros w w' [= C _].
Qed.

Lemma load_preserves : preserves observed (load_and_preprocess_data to_float csv_path).
Proof.
  unfold load_and_preprocess_data.
  apply preserves_bind; [|intros ?; apply preserves_ret].
  apply read_csv_preserves.
Qed.

Lemma analyze_respects (form : list (string * string)) :
  respects observed (analyze to_float draw_error form).
Proof.
  unfold analyze.
  apply respects_bind; [apply load_respects|intros df].
  apply respects_bind; [apply generate_plots_respects|intros _].
  apply respects_bind; [apply respects_lift|intros [[g c] p]; apply respects_ret].
Qed.

Lemma analyze_preserves (form : list (string * string)) :
  preserves observed (analyze to_float draw_error form).
Proof.
  unfold analyze.
  apply preserves_bind; [apply load_preserves|intros df].
  apply preserves_bind; [apply generate_plots_preserves|intros _].
  apply preserves_bind; [apply preserves_lift|intros [[g c] p]; apply preserves_ret].
Qed.

Lemma analyze_form (form form' : list (string * string)) :
  form_get "genre" form = form_get "genre" form' ->
  form_get "country" form = form_get "country" form' ->
  analyze to_float draw_error form = analyze to_float draw_error form'.
Proof. intros G C. unfold analyze. now rewrite G, C. Qed.
End HandlerFacts.

(** ** Requests *)

Section DispatchFacts.
Variable to_float : string -> option Qc.
Variable draw_error : figure -> option exn.

Lemma find_rule_cases (path : string) :
  find_rule to_float draw_error path =
  match match_rule (PathUnder "/static/") path with
  | Some filename => Some (mkRoute (PathUnder "/static/") [GET] StaticFile, filename)
  | None =>
      if String.eqb "/" path
      then Some (mkRoute (Exactly "/") [GET] (View index), EmptyString)
      else if String.eqb "/analyze" path
      then Some (mkRoute (Exactly "/analyze") [POST] (View (analyze to_float draw_error)),
                 EmptyString)
      else None
  end.
Proof.
  unfold find_rule, url_map, first_match. cbn [rule].
  destruct (match_rule (PathUnder "/static/") path); [reflexivity|].
  unfold match_rule.
  destruct (String.eqb "/" path); [reflexivity|].
  destruct (String.eqb "/analyze" path); reflexivity.
Qed.

Lemma views_respect (path : string) (r : route) (filename : string)
  (f : list (string * string) -> py html) :
  find_rule to_float draw_error path = Some (r, filename) ->
  endpoint_of r = View f ->
  forall form, respects observed (f form) /\ preserves observed (f form).
Proof.
  rewrite find_rule_cases.
  destruct (match_rule (PathUnder "/static/") path);
    [|destruct (String.eqb "/" path); [|destruct (String.eqb "/analyze" path)]];
    intros [= <- <-]; simpl; intros [= <-] form.
  - split; [apply respects_ret|apply preserves_ret].
  - split; [apply analyze_respects|apply analyze_preserves].
Qed.

(** A request that does not go to the static folder reads the file system
    through the observation only. *)
Lemma dispatch_respects (req : request) (w w' : world) :
  match_rule (PathUnder "/static/") (req_path req) = None ->
  observed w = observed w' ->
  fst (dispatch to_float draw_error req w) = fst (dispatch to_float draw_error req w') /\
  observed (snd (dispatch to_float draw_error req w)) = observed (snd (dispatch to_float draw_error req w')).
Proof.
  intros M H. unfold dispatch.
  destruct (find_rule to_float draw_error (req_path req)) as [[r filename]|] eqn:F;
    [|now split].
  destruct (negb _); [now split|].
  destruct (_ || _); [|now split].
  destruct (endpoint_of r) as [f|] eqn:E.
  - destruct (views_respect _ _ _ _ F E (req_form req)) as [R _].
    destruct (R w w' H) as [Eq W].
    destruct (f (req_form req) w), (f (req_form req) w');
      simpl in *; try discriminate; injection Eq as <-; now split.
  - rewrite find_rule_cases, M in F.
    destruct (String.eqb "/" (req_path req));
      [|destruct (String.eqb "/analyze" (req_path req))];
      try discriminate; injection F as <- <-; discriminate.
Qed.

Lemma dispatch_preserves (req : request) (w : world) :
  observed (snd (dispatch to_float draw_error req w)) = observed w.
Proof.
  unfold dispatch.
  destruct (find_rule to_float draw_error (req_path req)) as [[r filename]|] eqn:F;
    [|reflexivity].
  destruct (negb _); [reflexivity|].
  destruct (_ || _); [|reflexivity].
  destruct (endpoint_of r) as [f|] eqn:E; [|reflexivity].
  destruct (views_respect _ _ _ _ F E (req_form req)) as [_ P]. specialize (P w).
  now destruct (f (req_form req) w).
Qed.

Lemma serve_preserves (reqs : list request) (w : world) :
  observed (serve to_float draw_error reqs w) = observed w.
Proof.
  revert w. induction reqs as [|req rest IH]; intros w; simpl; [reflexivity|].
  now rewrite IH, dispatch_preserves.
Qed.

(** C5.  From one file system, whatever requests were served before, two
    POST requests to /analyze with the same genre and country fields get the
    same response (the same page, so the same tables, or the same
    exception). *)
Theorem analyze_response_independent_of_history
  (w : world) (before before' : list request) (form form' : list (string * string)) :
  form_get "genre" form = form_get "genre" form' ->
  form_get "country" form = form_get "country" form' ->
  fst (dispatch to_float draw_error (mkRequest POST "/analyze" form) (serve to_float draw_error before w))
  = fst (dispatch to_float draw_error (mkRequest POST "/analyze" form') (serve to_float draw_error before' w)).
Proof.
  intros G C.
  assert (E : dispatch to_float draw_error (mkRequest POST "/analyze" form') (serve to_float draw_error before' w)
              = dispatch to_float draw_error (mkRequest POST "/analyze" form) (serve to_float draw_error before' w)).
  { unfold dispatch. simpl. now rewrite (analyze_form to_float draw_error form form' G C). }
  rewrite E. apply dispatch_respects; [reflexivity|].
  now rewrite !serve_preserves.
Qed.

(** ** Exceptions *)

(** C6.  Nothing is caught: a failure of [read_csv] (a missing file among
    them) is the outcome of [load_and_preprocess_data]; a failure of loading,
    of plotting (drawing or saving; the first chart failing to draw is the
    outcome of [generate_plots]) or of grouping is the outcome of [analyze],
    with the exception it was raised with; and the request then gets no
    page. *)
Theorem exceptions_propagate_unchanged :
  (forall path w e w1,
     pd_read_csv path w = Raises e w1 ->
     load_and_preprocess_data to_float path w = Raises e w1) /\
  (forall path w,
     w path = None ->
     load_and_preprocess_data to_float path w = Raises FileNotFoundError w) /\
  (forall form w e w1,
     load_and_preprocess_data to_float csv_path w = Raises e w1 ->
     analyze to_float draw_error form w = Raises e w1) /\
  (forall form w df w1 e w2,
     load_and_preprocess_data to_float csv_path w = Returns df w1 ->
     generate_plots draw_error df "static" w1 = Raises e w2 ->
     analyze to_float draw_error form w = Raises e w2) /\
  (forall df w e,
     existsb (fun r => is_str (vote_average r)) df = false ->
     draw_error
       (mkFigure (BarPlot (map snd (mean_by genre df)) (map fst (mean_by genre df)))
          "Average Movie Ratings by Genre" (Some "Average Rating") (Some "Genre"))
     = Some e ->
     result (generate_plots draw_error df "static" w) = inl e) /\
  (forall form w df w1 u w2 e,
     load_and_preprocess_data to_float csv_path w = Returns df w1 ->
     generate_plots draw_error df "static" w1 = Returns u w2 ->
     analyze_ratings
       (filter_rows (form_get "genre" form) (form_get "country" form) df) = inl e ->
     analyze to_float draw_error form w = Raises e w2) /\
  (forall form w e w1,
     analyze to_float draw_error form w = Raises e w1 ->
     dispatch to_float draw_error (mkRequest POST "/analyze" form) w = (Unhandled e, w1)).
Proof.
  repeat split.
  - intros path w e w1 H. unfold load_and_preprocess_data, bind. now rewrite H.
  - intros path w H. unfold load_and_preprocess_data, bind, pd_read_csv. now rewrite H.
  - intros form w e w1 H. unfold analyze, bind at 1. now rewrite H.
  - intros form w df w1 e w2 H1 H2. unfold analyze, bind at 1. rewrite H1.
    unfold bind at 1. now rewrite H2.
  - intros df w e H D. rewrite generate_plots_unfold.
    unfold draw_and_save, mean_by_checked, bind at 1. rewrite H.
    unfold ret at 1, bind at 1, draw. rewrite D. reflexivity.
  - intros form w df w1 u w2 e H1 H2 H3. unfold analyze, bind at 1. rewrite H1.
    unfold bind at 1. rewrite H2. unfold bind. now rewrite H3.
  - intros form w e w1 H. unfold dispatch. simpl. now rewrite H.
Qed.
End DispatchFacts.

(** An empty file system: the CSV file is missing, and the request fails
    with the exception of [read_csv]. *)
Lemma exceptions_propagate_unchanged_witness :
  dispatch parse_decimal (fun _ => None)
    (mkRequest POST "/analyze" [("genre", "Drama")]) (fun _ => None)
  = (Unhandled FileNotFoundError, fun _ => None).
Proof.
  pose proof (exceptions_propagate_unchanged parse_decimal (fun _ => None))
    as (_ & Hload & Han & _ & _ & _ & Hd).
  apply Hd. apply Han. apply Hload. reflexivity.
Defined.

(** ** Pages *)

Lemma items_entries (l : list (cell * cell)) :
  flat_map item_entry (map rating_item l) = map shown l.
Proof.
  induction l as [|e t IH]; simpl; [reflexivity|]. now rewrite IH.
Qed.

Lemma items_no_tables (l : list (cell * cell)) :
  flat_map breakdown_tables (map rating_item l) = [].
Proof.
  induction l as [|e t IH]; simpl; [reflexivity|]. exact IH.
Qed.

Lemma items_no_images (l : list (cell * cell)) :
  flat_map image_links (map rating_item l) = [].
Proof.
  induction l as [|e t IH]; simpl; [reflexivity|]. exact IH.
Qed.

Lemma results_html_tables g c p a b d :
  breakdown_tables (results_html g c p a b d) = [map shown g; map shown c].
Proof.
  simpl. rewrite !items_entries, !items_no_tables. reflexivity.
Qed.

Lemma results_html_images g c p a b d :
  image_links (results_html g c p a b d) = [a; b; d].
Proof.
  simpl. rewrite !items_no_images. reflexivity.
Qed.

Section RouteFacts.
Variable to_float : string -> option Qc.
Variable draw_error : figure -> option exn.

Lemma analyze_returns (form : list (string * string)) (w w' : world) (body : html) :
  analyze to_float draw_error form w = Returns body w' ->
  exists table genre_ratings country_ratings genre_country_ratings,
    w csv_path = Some (CsvFile table) /\
    generate_plots draw_error (preprocess to_float table) "static" w = Returns tt w' /\
    analyze_ratings
      (filter_rows (form_get "genre" form) (form_get "country" form)
         (preprocess to_float table))
    = inr (genre_ratings, country_ratings, genre_country_ratings) /\
    body = results_html (to_dict genre_ratings) (to_dict country_ratings)
             (pivot_to_dict genre_country_ratings)
             "static/genre_ratings.png" "static/genre_country_heatmap.png"
             "static/genre_boxplot.png".
Proof.
  unfold analyze, load_and_preprocess_data, bind at 1, bind at 1, pd_read_csv.
  destruct (w csv_path) as [[|table| |]|]; try discriminate.
  unfold ret at 1, bind at 1.
  destruct (generate_plots _ _ _ w) as [[] w2|e w2] eqn:G; [|discriminate].
  unfold bind.
  destruct (analyze_ratings _) as [e|[[gr cr] p]] eqn:R; simpl; [discriminate|].
  intros [= <- <-]. exists table, gr, cr, p. repeat split; auto.
Qed.

(** C3.  The application answers on three rules: the two of the script and
    the rule of the static folder, through which the images are fetched.  A
    request is not found exactly when its path matches none of the three, or
    is a GET or HEAD under /static/ for which [send_static_file] finds no
    file; a GET of an image that [generate_plots] has written is answered
    with that image.  A GET of the home path returns the form page,
    unchanged by the file system, whose form posts the fields [genre] and
    [country] to /analyze.  /analyze is a POST route.  [form.get] reads the
    first value of a field of the form.  A page returned for a POST to
    /analyze is the results page for the tables of [analyze_ratings] on the
    rows that the fields [genre] and [country] retain: its two lists hold
    the entries of the genre table and of the country table (values rounded
    to two decimals), and its images are the bar chart, the heatmap and the
    box plot. *)
Theorem script_routes_and_static_rule :
  map (fun r => (rule r, methods r)) (url_map to_float draw_error)
  = [(PathUnder "/static/", [GET]); (Exactly "/", [GET]); (Exactly "/analyze", [POST])] /\
  (forall req w,
     fst (dispatch to_float draw_error req w) = NotFound <->
     (req_path req <> "/" /\ req_path req <> "/analyze" /\
      match_rule (PathUnder "/static/") (req_path req) = None) \/
     (exists filename,
        match_rule (PathUnder "/static/") (req_path req) = Some filename /\
        (req_method req = GET \/ req_method req = HEAD) /\
        send_static_file filename w = NotFound)) /\
  (forall name form w fig,
     In name ["genre_ratings.png"; "genre_country_heatmap.png"; "genre_boxplot.png"] ->
     w (os_path_join "static" name) = Some (ImageFile fig) ->
     dispatch to_float draw_error (mkRequest GET ("/static/" ++ name) form) w
     = (SentFile (ImageFile fig), w)) /\
  (forall form w,
     dispatch to_float draw_error (mkRequest GET "/" form) w = (Page index_html, w)) /\
  forms index_html = [(Some "/analyze", Some "post", ["genre"; "country"])] /\
  (forall form w,
     fst (dispatch to_float draw_error (mkRequest GET "/analyze" form) w)
     = MethodNotAllowed) /\
  (forall form w,
     fst (dispatch to_float draw_error (mkRequest POST "/" form) w)
     = MethodNotAllowed) /\
  (forall name v rest, form_get name ((name, v) :: rest) = Some v) /\
  (forall name k v rest,
     k <> name -> form_get name ((k, v) :: rest) = form_get name rest) /\
  (forall name, form_get name [] = None) /\
  (forall form w body,
     fst (dispatch to_float draw_error (mkRequest POST "/analyze" form) w) = Page body ->
     exists table genre_ratings country_ratings genre_country_ratings
            genre_list country_list,
       w csv_path = Some (CsvFile table) /\
       analyze_ratings
         (filter_rows (form_get "genre" form) (form_get "country" form)
            (preprocess to_float table))
       = inr (genre_ratings, country_ratings, genre_country_ratings) /\
       breakdown_tables body = [genre_list; country_list] /\
       Permutation genre_list (map shown genre_ratings) /\
       Permutation country_list (map shown country_ratings) /\
       image_links body = ["static/genre_ratings.png";
                           "static/genre_country_heatmap.png";
                           "static/genre_boxplot.png"]).
Proof.
  split; [reflexivity|]. split; [|split; [|split; [|split; [|split; [|split]]]]];
    try reflexivity.
  - intros req w. unfold dispatch. rewrite find_rule_cases.
    destruct (match_rule (PathUnder "/static/") (req_path req)) as [filename|] eqn:M.
    + cbn [allowed_methods methods endpoint_of existsb app].
      destruct (req_method req) eqn:Em; cbn; split;
        try discriminate;
        try (intros [(_ & _ & [=])|(f & [= <-] & [[=]|[=]] & _)]; fail).
      * intros H. right. exists filename. auto.
      * intros [(_ & _ & [=])|(f & [= <-] & _ & H)]. exact H.
      * intros H. right. exists filename. auto.
      * intros [(_ & _ & [=])|(f & [= <-] & _ & H)]. exact H.
    + destruct (String.eqb "/" (req_path req)) eqn:E1;
        [|destruct (String.eqb "/analyze" (req_path req)) eqn:E2].
      * apply String.eqb_eq in E1. split.
        -- destruct (negb _); [discriminate|]. destruct (_ || _); [|discriminate].
           simpl. discriminate.
        -- intros [(H & _)|(f & [=] & _)]. congruence.
      * apply String.eqb_eq in E2. split.
        -- destruct (negb _); [discriminate|]. destruct (_ || _); [|discriminate].
           cbn [endpoint_of]. now destruct (analyze _ _ _ _).
        -- intros [(_ & H & _)|(f & [=] & _)]. congruence.
      * apply String.eqb_neq in E1, E2. split; [|reflexivity].
        intros _. left. repeat split; congruence.
  - intros name form w fig Hn Hw. unfold dispatch.
    destruct Hn as [<-|[<-|[<-|[]]]]; cbn; unfold send_static_file;
      cbn; unfold os_path_join in Hw; cbn in Hw; now rewrite Hw.
  - split; [|split; [|split]].
    + intros name v rest. unfold form_get. simpl. now rewrite String.eqb_refl.
    + intros name k v rest H. unfold form_get. simpl.
      apply String.eqb_neq in H. rewrite String.eqb_sym in H. now rewrite H.
    + reflexivity.
    + intros form w body H. unfold dispatch in H. simpl in H.
      destruct (analyze to_float draw_error form w) as [b w'|e w'] eqn:A;
        simpl in H; [|discriminate].
      injection H as ->.
      destruct (analyze_returns _ _ _ _ A) as (table & gr & cr & p & C & _ & R & ->).
      exists table, gr, cr, p, (map shown gr), (map shown cr).
      repeat split; auto.
      * apply results_html_tables.
      * apply results_html_images.
Qed.
End RouteFacts.

Lemma analyze_response_independent_of_history_witness :
  fst (dispatch parse_decimal draws_all
         (mkRequest POST "/analyze" [("genre", "Drama"); ("country", "")])
         (serve parse_decimal draws_all [] sample_world))
  = fst (dispatch parse_decimal draws_all
           (mkRequest POST "/analyze" [("country", ""); ("year", "1999"); ("genre", "Drama")])
           (serve parse_decimal draws_all
              [mkRequest GET "/" []; mkRequest POST "/analyze" [("genre", "Action")]]
              sample_world)).
Proof.
  apply analyze_response_independent_of_history; reflexivity.
Defined.

Lemma script_routes_and_static_rule_witness :
  exists body,
    fst (dispatch parse_decimal draws_all
           (mkRequest POST "/analyze" [("genre", "Drama")]) sample_world) = Page body /\
    image_links body = ["static/genre_ratings.png";
                        "static/genre_country_heatmap.png";
                        "static/genre_boxplot.png"].
Proof.
  eexists. split; [vm_compute; reflexivity|].
  destruct (proj2 (proj2 (proj2 (proj2 (proj2 (proj2 (proj2 (proj2 (proj2 (proj2
              (script_routes_and_static_rule parse_decimal draws_all))))))))))
              [("genre", "Drama")] sample_world _ eq_refl)
    as (table & gr & cr & p & tg & tc & _ & _ & _ & _ & _ & H).
  exact H.
Defined.

(** A third path that answers: after a POST to /analyze, a GET of
    /static/genre_ratings.png is answered with the bar chart that the
    request has saved. *)
Lemma static_rule_answers :
  fst (dispatch parse_decimal draws_all
         (mkRequest GET "/static/genre_ratings.png" [])
         (serve parse_decimal draws_all
            [mkRequest POST "/analyze" [("genre", "Drama")]] sample_world))
  = SentFile (ImageFile (genre_bar_figure (preprocess parse_decimal sample_table))) /\
  match_rule (Exactly "/") "/static/genre_ratings.png" = None /\
  match_rule (Exactly "/analyze") "/static/genre_ratings.png" = None.
Proof.
  split; [vm_compute; reflexivity|]. split; reflexivity.
Qed.

(** ** The split *)

Lemma In_firstn {A : Type} (n : nat) (l : list A) (x : A) :
  In x (firstn n l) -> In x l.
Proof.
  intros H. rewrite <- (firstn_skipn n l). apply in_or_app. now left.
Qed.

Lemma In_skipn {A : Type} (n : nat) (l : list A) (x : A) :
  In x (skipn n l) -> In x l.
Proof.
  intros H. rewrite <- (firstn_skipn n l). apply in_or_app. now right.
Qed.

Lemma take_in_range {A : Type} (d : A) (a : list A) (ind : list nat) :
  Forall (fun i => (i < length a)%nat) ind ->
  take a ind = inr (map (fun i => nth i a d) ind).
Proof.
  induction 1 as [|i t Hi _ IH]; simpl; [reflexivity|].
  rewrite (nth_error_nth' a d Hi), IH. reflexivity.
Qed.

Lemma nodupb_NoDup (l : list nat) : nodupb l = true -> NoDup l.
Proof.
  induction l as [|x t IH]; simpl; [constructor|].
  rewrite andb_true_iff, negb_true_iff. intros [H1 H2]. constructor; [|now apply IH].
  intros Hin. assert (E : existsb (Nat.eqb x) t = true); [|congruence].
  apply existsb_exists. exists x. split; [exact Hin|apply Nat.eqb_refl].
Qed.

Lemma is_shuffle_spec (n : nat) (l : list nat) :
  is_shuffle n l = true ->
  length l = n /\ Forall (fun i => (i < n)%nat) l /\ NoDup l.
Proof.
  unfold is_shuffle. rewrite !andb_true_iff, Nat.eqb_eq, forallb_forall.
  intros [[L B] N]. split; [exact L|]. split; [|now apply nodupb_NoDup].
  rewrite Forall_forall. intros i Hi. now apply Nat.ltb_lt, B.
Qed.

Lemma is_shuffle_perm (n : nat) (l : list nat) :
  is_shuffle n l = true -> Permutation l (seq 0 n).
Proof.
  intros H. destruct (is_shuffle_spec n l H) as (L & B & N).
  apply NoDup_Permutation_bis; [exact N| |].
  - rewrite length_seq. lia.
  - intros i Hi. rewrite Forall_forall in B. apply in_seq. specialize (B i Hi). lia.
Qed.

(** [n_test_of n] is the ceiling of [n / 5]. *)
Lemma n_test_of_ceiling (n : nat) :
  (n <= 5 * n_test_of n < n + 5)%nat.
Proof.
  unfold n_test_of. set (x := ((2 # 10) * inject_Z (Z.of_nat n))%Q).
  pose proof (Qle_ceiling x) as U. pose proof (Qceiling_lt x) as L.
  revert U L. generalize (Qceiling x). intros c U L.
  unfold x, Qle, Qlt, Qmult, inject_Z in U, L. cbn [Qnum Qden] in U, L.
  rewrite ?Pos.mul_1_r in U, L.
  split; lia.
Qed.

Section SplitFacts.
Context {A B : Type}.
Variable permutation : nat -> list nat.
Variables (dA : A) (dB : B).

Lemma train_test_split_ok (X : list A) (y : list B) :
  length y = length X ->
  is_shuffle (length X) (permutation (length X)) = true ->
  (n_test_of (length X) < length X)%nat ->
  train_test_split permutation X y =
  let ind_test := firstn (n_test_of (length X)) (permutation (length X)) in
  let ind_train := skipn (n_test_of (length X)) (permutation (length X)) in
  inr (map (fun i => nth i X dA) ind_train, map (fun i => nth i X dA) ind_test,
       map (fun i => nth i y dB) ind_train, map (fun i => nth i y dB) ind_test).
Proof.
  intros Ly Hs Hn. destruct (is_shuffle_spec _ _ Hs) as (L & Bd & _).
  unfold train_test_split. rewrite Ly, Nat.eqb_refl. simpl negb. cbv iota.
  destruct (length X - n_test_of (length X) =? 0)%nat eqn:E;
    [apply Nat.eqb_eq in E; lia|].
  cbv zeta.
  assert (F : firstn (length X - n_test_of (length X))
                     (skipn (n_test_of (length X)) (permutation (length X)))
              = skipn (n_test_of (length X)) (permutation (length X))).
  { apply firstn_all2. rewrite length_skipn. lia. }
  rewrite F.
  assert (Btest : Forall (fun i => (i < length X)%nat)
                         (firstn (n_test_of (length X)) (permutation (length X)))).
  { rewrite Forall_forall in *. intros i Hi. apply Bd. eapply In_firstn, Hi. }
  assert (Btrain : Forall (fun i => (i < length X)%nat)
                          (skipn (n_test_of (length X)) (permutation (length X)))).
  { rewrite Forall_forall in *. intros i Hi. apply Bd. eapply In_skipn, Hi. }
  rewrite (take_in_range dA X _ Btrain), (take_in_range dA X _ Btest).
  assert (Btrain' : Forall (fun i => (i < length y)%nat)
                           (skipn (n_test_of (length X)) (permutation (length X))))
    by (rewrite Ly; exact Btrain).
  assert (Btest' : Forall (fun i => (i < length y)%nat)
                          (firstn (n_test_of (length X)) (permutation (length X))))
    by (rewrite Ly; exact Btest).
  rewrite (take_in_range dB y _ Btrain'), (take_in_range dB y _ Btest').
  reflexivity.
Qed.
End SplitFacts.

(** ** Counting and fractions *)

Lemma Qc_of_nat_S (n : nat) : Qc_of_nat (S n) = (Q2Qc 1 + Qc_of_nat n)%Qc.
Proof.
  unfold Qc_of_nat, Qc_of_Z, Qcplus. apply Q2Qc_eq_iff.
  rewrite Nat2Z.inj_succ. unfold Z.succ. rewrite inject_Z_plus.
  unfold Q2Qc. cbn [this]. rewrite !Qred_correct. ring.
Qed.

Lemma Qc_of_nat_le (n m : nat) : (n <= m)%nat -> (Qc_of_nat n <= Qc_of_nat m)%Qc.
Proof.
  intros H. unfold Qcle, Qc_of_nat, Qc_of_Z, Q2Qc. cbn [this]. rewrite !Qred_correct.
  rewrite <- Zle_Qle. lia.
Qed.

Lemma Qc_of_nat_neq0 (n : nat) : n <> 0%nat -> Qc_of_nat n <> Q2Qc 0.
Proof.
  intros H E. unfold Qc_of_nat, Qc_of_Z in E. apply Q2Qc_eq_iff in E.
  unfold Qeq in E. simpl in E. lia.
Qed.

Lemma indicator_sum (l : list (nat * nat)) :
  Qc_sum (map (fun p => if (fst p =? snd p)%nat then Q2Qc 1 else Q2Qc 0) l)
  = Qc_of_nat (length (filter (fun p => (fst p =? snd p)%nat) l)).
Proof.
  induction l as [|p t IH]; simpl.
  - apply Qc_is_canon. reflexivity.
  - rewrite IH. destruct (fst p =? snd p)%nat; simpl.
    + now rewrite Qc_of_nat_S.
    + apply Qcplus_0_l.
Qed.

(** The score is the fraction of samples whose predicted label is the true
    one. *)
Lemma accuracy_score_fraction (y_true y_pred : list nat) :
  accuracy_score y_true y_pred
  = (Qc_of_nat (correct y_true y_pred) / Qc_of_nat (length y_true))%Qc.
Proof. unfold accuracy_score, correct. now rewrite indicator_sum. Qed.

Lemma correct_le (y_true y_pred : list nat) :
  (correct y_true y_pred <= length y_true)%nat.
Proof.
  unfold correct. etransitivity; [apply filter_length_le|].
  rewrite length_combine. lia.
Qed.

(** ** Nearest neighbours *)

Lemma map_exn_pure {A B : Type} (f : A -> exn + B) (g : A -> B) (l : list A) :
  (forall x, In x l -> f x = inr (g x)) -> map_exn f l = inr (map g l).
Proof.
  induction l as [|x t IH]; simpl; intros H; [reflexivity|].
  rewrite (H x (or_introl eq_refl)). simpl. rewrite IH by auto. reflexivity.
Qed.


Section NeighbourFacts.
Variable nn : search.

Lemma kneighbors_ok (m : KNeighborsClassifier) (x : list Qc) :
  (n_neighbors m <= length (fit_X m))%nat ->
  kneighbors nn m x = inr (firstn (n_neighbors m) (nn m x)).
Proof.
  intros H. unfold kneighbors.
  destruct (length (fit_X m) <? n_neighbors m)%nat eqn:E; [|reflexivity].
  apply Nat.ltb_lt in E. lia.
Qed.

Lemma predict_ok (m : KNeighborsClassifier) (X : list (list Qc)) :
  (n_neighbors m <= length (fit_X m))%nat ->
  predict nn m X = inr (map (predicted_label nn m) X).
Proof.
  intros H. unfold predict. apply map_exn_pure. intros x _.
  unfold predict_one. now rewrite kneighbors_ok.
Qed.

Hypothesis nn_nearest_first : nearest_first nn.

End NeighbourFacts.

Lemma by_distance_perm (m : KNeighborsClassifier) (x : list Qc) :
  Permutation (combine (seq 0 (length (fit_X m))) (map (sq_dist x) (fit_X m)))
              (by_distance m x).
Proof. apply isort_perm. Qed.

Lemma by_distance_entry (m : KNeighborsClassifier) (x : list Qc) (i : nat) (d : Qc) :
  In (i, d) (by_distance m x) <->
  (i < length (fit_X m))%nat /\ d = sq_dist x (nth i (fit_X m) []).
Proof.
  unfold by_distance. rewrite isort_In.
  generalize (fit_X m). intros l.
  assert (G : forall s, In (i, d) (combine (seq s (length l)) (map (sq_dist x) l)) <->
                        (s <= i < s + length l)%nat /\ d = sq_dist x (nth (i - s) l [])).
  { induction l as [|a t IH]; intros s; simpl.
    - split; [tauto|lia].
    - rewrite IH. split.
      + intros [[= <- <-]|[H ->]].
        * rewrite Nat.sub_diag. split; [lia|reflexivity].
        * split; [lia|]. destruct (i - s)%nat as [|k] eqn:E; [lia|].
          replace (i - S s)%nat with k by lia. reflexivity.
      + intros [H ->]. destruct (Nat.eq_dec i s) as [->|N].
        * left. now rewrite Nat.sub_diag.
        * right. split; [lia|]. destruct (i - s)%nat as [|k] eqn:E; [lia|].
          replace (i - S s)%nat with k by lia. reflexivity. }
  rewrite G, Nat.sub_0_r. simpl. split; intros [H ->]; (split; [lia|reflexivity]).
Qed.

Lemma StronglySorted_map {A B : Type} (f : A -> B) (R : B -> B -> Prop) (l : list A) :
  StronglySorted (fun a b => R (f a) (f b)) l -> StronglySorted R (map f l).
Proof.
  induction 1 as [|h t S IH F]; simpl; constructor; [exact IH|].
  rewrite Forall_forall in *. intros b Hb. apply in_map_iff in Hb.
  destruct Hb as [a [<- Ha]]. now apply F.
Qed.

(** Sorting by distance, samples at the same distance in training order, is
    one of the searches. *)
Lemma brute_force_nearest_first : nearest_first brute_force.
Proof.
  intros m x. unfold brute_force. set (l := by_distance m x). split.
  - symmetry. etransitivity; [|apply Permutation_map, by_distance_perm].
    clear. generalize 0%nat. induction (fit_X m) as [|a t IH]; intros s; simpl;
      [reflexivity|]. now constructor.
  - apply StronglySorted_map.
    apply StronglySorted_impl_on
      with (P := fun a => In a l) (R := fun a b => Qc_leb (snd a) (snd b) = true).
    + intros [i di] [j dj] Hi Hj Le. simpl in *.
      apply by_distance_entry in Hi, Hj. destruct Hi as [_ ->], Hj as [_ ->].
      now apply Qc_leb_le.
    + rewrite Forall_forall. auto.
    + apply isort_sorted.
      * intros a b. apply Qc_leb_total.
      * intros a b c. apply Qc_leb_trans.
Qed.

(** ** Rounding and printing *)

Lemma round_half_even_near (x : Qc) :
  (x - (1 # 2) <= inject_Z (round_half_even x) <= x + (1 # 2))%Q.
Proof.
  unfold round_half_even.
  pose proof (Qfloor_le x) as L. pose proof (Qlt_floor x) as U.
  rewrite inject_Z_plus in U. change (inject_Z 1) with 1%Q in U.
  destruct (Qcompare (x - inject_Z (Qfloor x)) (1 # 2)) eqn:C.
  - apply Qeq_alt in C.
    destruct (Z.even (Qfloor x)); rewrite ?inject_Z_plus;
      change (inject_Z 1) with 1%Q; split; lra.
  - apply Qlt_alt in C. split; lra.
  - apply Qgt_alt in C. rewrite inject_Z_plus. change (inject_Z 1) with 1%Q.
    split; lra.
Qed.

Lemma round_half_even_nonneg (x : Qc) :
  (0 <= x)%Q -> (0 <= round_half_even x)%Z.
Proof.
  intros H. unfold round_half_even.
  assert (F : (0 <= Qfloor x)%Z).
  { change 0%Z with (Qfloor 0). now apply Qfloor_resp_le. }
  destruct (Qcompare _ _); [destruct (Z.even _)| |]; lia.
Qed.

Lemma this_mult_100 (x : Qc) : (this (x * Q2Qc 100)%Qc == x * 100)%Q.
Proof.
  unfold Qcmult, Q2Qc. cbn [this]. rewrite !Qred_correct. reflexivity.
Qed.

(** What ['%.2f'] prints for a number that is not negative: a numeral with
    two decimal digits, whose value is within 1/200 of the number. *)
Lemma format_2f_spec (x : Qc) :
  (0 <= x)%Q ->
  exists n d1 d2,
    format_2f x = two_decimals n d1 d2 /\
    (d1 < 10)%N /\ (d2 < 10)%N /\
    (x - (1 # 200) <= two_decimals_value n d1 d2 <= x + (1 # 200))%Q.
Proof.
  intros H. unfold format_2f.
  set (r := round_half_even (x * Q2Qc 100)).
  set (c := Z.abs_N r).
  exists (c / 100)%N, ((c mod 100) / 10)%N, (c mod 10)%N.
  assert (Hr : (0 <= r)%Z).
  { apply round_half_even_nonneg. rewrite this_mult_100. lra. }
  assert (Hc : Z.of_N c = r) by (unfold c; lia).
  split; [|split; [|split]].
  - apply Qle_bool_iff in H. now rewrite H.
  - clearbody c. zify. Z.to_euclidean_division_equations. lia.
  - clearbody c. zify. Z.to_euclidean_division_equations. lia.
  - pose proof (round_half_even_near (x * Q2Qc 100)) as N.
    fold r in N. rewrite this_mult_100 in N. rewrite <- Hc in N.
    assert (V : (two_decimals_value (c / 100) ((c mod 100) / 10) (c mod 10)
                 == inject_Z (Z.of_N c) * (1 # 100))%Q).
    { unfold two_decimals_value.
      assert (D : Z.of_N c = (100 * Z.of_N (c / 100) + 10 * Z.of_N ((c mod 100) / 10)
                              + Z.of_N (c mod 10))%Z)
        by (clear; zify; Z.to_euclidean_division_equations; lia).
      rewrite D. rewrite !inject_Z_plus, !inject_Z_mult. field. }
    rewrite V. clear V. revert N. generalize (inject_Z (Z.of_N c)).
    intros q N. split; lra.
Qed.

(** ** The iris script *)



Section ScriptFacts.
Variable nn : search.
Variable X : list (list Qc).
Variable y : list nat.
Variable permutation : nat -> list nat.

Hypothesis same_length : length y = length X.
Hypothesis shuffled : is_shuffle (length X) (permutation (length X)) = true.
Hypothesis test_smaller : (n_test_of (length X) < length X)%nat.
Hypothesis enough_neighbours : (3 <= length X - n_test_of (length X))%nat.

Let X_train := rows_at [] X (train_indices permutation (length X)).
Let X_test := rows_at [] X (test_indices permutation (length X)).
Let y_train := rows_at 0%nat y (train_indices permutation (length X)).
Let y_test := rows_at 0%nat y (test_indices permutation (length X)).
Let model := mkKNN 3 X_train y_train.
Let y_pred := map (predicted_label nn model) X_test.
Let accuracy := accuracy_score y_test y_pred.

Lemma split_lengths :
  length X_test = n_test_of (length X) /\
  length y_test = n_test_of (length X) /\
  length X_train = (length X - n_test_of (length X))%nat /\
  length y_train = (length X - n_test_of (length X))%nat.
Proof.
  destruct (is_shuffle_spec _ _ shuffled) as (L & _ & _).
  unfold X_test, y_test, X_train, y_train, rows_at, test_indices, train_indices.
  rewrite !length_map, length_firstn, length_skipn, L. lia.
Qed.


Lemma script_steps :
  train_test_split permutation X y = inr (X_train, X_test, y_train, y_test) /\
  fit 3 X_train y_train = inr model /\
  predict nn model X_test = inr y_pred /\
  score nn model X_test y_test = inr accuracy /\
  iris_classifier nn X y permutation
  = inr [("Accuracy: " ++ format_2f (accuracy * Q2Qc 100) ++ "%")%string].
Proof.
  pose proof split_lengths as (L1 & L2 & L3 & L4).
  assert (S : train_test_split permutation X y = inr (X_train, X_test, y_train, y_test)).
  { rewrite (train_test_split_ok permutation [] 0%nat X y same_length shuffled test_smaller).
    reflexivity. }
  assert (F : fit 3 X_train y_train = inr model).
  { unfold fit. rewrite L3, L4, Nat.eqb_refl. reflexivity. }
  assert (P : predict nn model X_test = inr y_pred).
  { apply predict_ok. simpl. rewrite L3. exact enough_neighbours. }
  assert (Sc : score nn model X_test y_test = inr accuracy).
  { unfold score. rewrite P. reflexivity. }
  repeat split; auto.
  unfold iris_classifier. rewrite S. simpl bind_exn. rewrite F. simpl bind_exn.
  rewrite Sc. reflexivity.
Qed.
End ScriptFacts.

Lemma mode_most_voted (labels : list nat) (cs : list nat) (c : nat) :
  In c cs -> (votes labels c <= votes labels (mode cs labels))%nat.
Proof.
  destruct cs as [|c0 rest]; simpl; [tauto|].
  assert (G : forall rest best,
             let m := fold_left (fun best c' => if (votes labels best <? votes labels c')%nat
                                                then c' else best) rest best in
             (votes labels best <= votes labels m)%nat /\
             (forall c', In c' rest -> (votes labels c' <= votes labels m)%nat)).
  { clear. induction rest as [|a t IH]; intros best; simpl; [split; [lia|tauto]|].
    destruct (votes labels best <? votes labels a)%nat eqn:E.
    - apply Nat.ltb_lt in E. destruct (IH a) as [H1 H2]. split; [lia|].
      intros c' [<-|H]; [exact H1|now apply H2].
    - apply Nat.ltb_ge in E. destruct (IH best) as [H1 H2]. split; [exact H1|].
      intros c' [<-|H]; [lia|now apply H2]. }
  destruct (G rest c0) as [H1 H2]. intros [<-|H]; [exact H1|now apply H2].
Qed.

Lemma percent_of_thirty (k : nat) :
  (k <= 30)%nat ->
  ((Qc_of_nat k / Qc_of_nat 30) * Q2Qc 100 = Qc_of_nat k * Q2Qc (10 # 3))%Qc /\
  (Q2Qc 0 <= Qc_of_nat k * Q2Qc (10 # 3))%Qc /\
  (Qc_of_nat k * Q2Qc (10 # 3) <= Q2Qc 100)%Qc.
Proof.
  intros H. split; [|split].
  - unfold Qcdiv.
    replace (Q2Qc (10 # 3)) with (Q2Qc 100 * / Qc_of_nat 30)%Qc
      by (apply Qc_is_canon; vm_compute; reflexivity).
    ring.
  - replace (Q2Qc 0) with (Qc_of_nat 0 * Q2Qc (10 # 3))%Qc
      by (apply Qc_is_canon; vm_compute; reflexivity).
    apply Qcmult_le_compat_r; [apply Qc_of_nat_le; lia|]. unfold Qcle. vm_compute. discriminate.
  - replace (Q2Qc 100) with (Qc_of_nat 30 * Q2Qc (10 # 3))%Qc
      by (apply Qc_is_canon; vm_compute; reflexivity).
    apply Qcmult_le_compat_r; [now apply Qc_of_nat_le|]. unfold Qcle. vm_compute. discriminate.
Qed.


Section ScriptTheorems.
Variable nn : search.
Variable X : list (list Qc).
Variable y : list nat.
Variable permutation : nat -> list nat.

Let X_train := rows_at [] X (train_indices permutation (length X)).
Let X_test := rows_at [] X (test_indices permutation (length X)).
Let y_train := rows_at 0%nat y (train_indices permutation (length X)).
Let y_test := rows_at 0%nat y (test_indices permutation (length X)).
Let model := mkKNN 3 X_train y_train.
Let y_pred := map (predicted_label nn model) X_test.
Let accuracy := accuracy_score y_test y_pred.

End ScriptTheorems.

Section Iris150.
Variable nn : search.
Variable iris_data : list (list Qc).
Variable iris_target : list nat.
Variable permutation : nat -> list nat.

Hypothesis data_150 : length iris_data = 150%nat.
Hypothesis target_150 : length iris_target = 150%nat.
Hypothesis shuffled_150 : is_shuffle 150 (permutation 150) = true.

Lemma iris_150_run :
  exists X_train X_test y_train y_test model y_pred,
    train_test_split permutation iris_data iris_target
    = inr (X_train, X_test, y_train, y_test) /\
    length X_test = 30%nat /\ length y_test = 30%nat /\
    length X_train = 120%nat /\ length y_train = 120%nat /\
    fit 3 X_train y_train = inr model /\
    predict nn model X_test = inr y_pred /\
    accuracy_score y_test y_pred
    = (Qc_of_nat (correct y_test y_pred) / Qc_of_nat 30)%Qc /\
    score nn model X_test y_test = inr (accuracy_score y_test y_pred) /\
    iris_classifier nn iris_data iris_target permutation
    = inr [("Accuracy: " ++ format_2f (accuracy_score y_test y_pred * Q2Qc 100)
            ++ "%")%string].
Proof.
  assert (same_length : length iris_target = length iris_data) by congruence.
  assert (shuffled : is_shuffle (length iris_data) (permutation (length iris_data)) = true)
    by (rewrite data_150; exact shuffled_150).
  assert (test_smaller : (n_test_of (length iris_data) < length iris_data)%nat)
    by (rewrite data_150; apply Nat.ltb_lt; vm_compute; reflexivity).
  assert (enough : (3 <= length iris_data - n_test_of (length iris_data))%nat)
    by (rewrite data_150; apply Nat.leb_le; vm_compute; reflexivity).
  destruct (script_steps nn _ _ _ same_length shuffled test_smaller enough)
    as (S & F & P & Sc & R).
  destruct (split_lengths _ _ _ same_length shuffled test_smaller enough)
    as (L1 & L2 & L3 & L4).
  rewrite data_150 in S, F, P, Sc, R, L1, L2, L3, L4.
  change (n_test_of 150) with 30%nat in L1, L2, L3, L4.
  change (150 - 30)%nat with 120%nat in L3, L4.
  do 6 eexists.
  split; [exact S|]. split; [exact L1|]. split; [exact L2|].
  split; [exact L3|]. split; [exact L4|]. split; [exact F|]. split; [exact P|].
  split; [now rewrite accuracy_score_fraction, L2|]. split; [exact Sc|exact R].
Qed.


(** C7.  The script takes no input and prints one line: [Accuracy: ], a
    numeral with two decimal digits, and [%].  The numeral is the rounding
    to the nearest hundredth of the accuracy percentage, and the accuracy is
    the script's own: the score, on the test part of its split, of the
    classifier it has fitted on the training part. *)
Theorem iris_prints_one_line :
  exists X_train X_test y_train y_test model y_pred accuracy n d1 d2,
    train_test_split permutation iris_data iris_target
    = inr (X_train, X_test, y_train, y_test) /\
    fit 3 X_train y_train = inr model /\
    predict nn model X_test = inr y_pred /\
    accuracy = accuracy_score y_test y_pred /\
    score nn model X_test y_test = inr accuracy /\
    iris_classifier nn iris_data iris_target permutation
    = inr [("Accuracy: " ++ two_decimals n d1 d2 ++ "%")%string] /\
    two_decimals n d1 d2 = format_2f (accuracy * Q2Qc 100) /\
    (d1 < 10)%N /\ (d2 < 10)%N /\
    ((accuracy * Q2Qc 100)%Qc - (1 # 200) <= two_decimals_value n d1 d2)%Q /\
    (two_decimals_value n d1 d2 <= (accuracy * Q2Qc 100)%Qc + (1 # 200))%Q.
Proof.
  destruct iris_150_run
    as (X_train & X_test & y_train & y_test & model & y_pred &
        S & L1 & L2 & L3 & L4 & F & P & A & Sc & R).
  assert (K : (correct y_test y_pred <= 30)%nat).
  { rewrite <- L2. apply correct_le. }
  destruct (percent_of_thirty _ K) as (E & Lo & Hi).
  rewrite <- A in E.
  assert (Pos : (0 <= (accuracy_score y_test y_pred * Q2Qc 100)%Qc)%Q).
  { rewrite E. exact Lo. }
  destruct (format_2f_spec _ Pos) as (n & d1 & d2 & Fm & D1 & D2 & Lw & Up).
  exists X_train, X_test, y_train, y_test, model, y_pred,
    (accuracy_score y_test y_pred), n, d1, d2.
  rewrite <- Fm. repeat split; auto.
Qed.
End Iris150.

(** *** The theorems on the toy data set *)




Lemma iris_prints_one_line_witness :
  exists n d1 d2,
    iris_classifier brute_force toy_data toy_target toy_permutation
    = inr [("Accuracy: " ++ two_decimals n d1 d2 ++ "%")%string] /\
    (d1 < 10)%N /\ (d2 < 10)%N.
Proof.
  destruct (iris_prints_one_line brute_force toy_data toy_target toy_permutation)
    as (_ & _ & _ & _ & _ & _ & _ & n & d1 & d2 & _ & _ & _ & _ & _ & R & _ & D1 & D2 & _).
  - reflexivity.
  - reflexivity.
  - vm_compute. reflexivity.
  - exists n, d1, d2. auto.
Defined.

(** *** The tables of a sample request *)

Lemma analyze_tables_are_group_means_witness :
  exists col v,
    assoc cell_eqb (Str "UK")
      (pivot_to_dict
         (pivot_table (filter_rows (Some "Drama") None
                         (preprocess parse_decimal sample_table)))) = Some col /\
    assoc cell_eqb (Str "Drama") col = Some v /\
    v = series_mean
          (map vote_average
             (filter (fun r => cell_eqb (Str "Drama") (genre r)
                               && cell_eqb (Str "UK") (country r))
                (filter_rows (Some "Drama") None
                   (preprocess parse_decimal sample_table)))).
Proof.
  destruct (analyze_tables_are_group_means parse_decimal sample_table (Some "Drama") None)
    as (_ & gr & cr & gcr & E & _ & _ & Entry & Has & _).
  rewrite analyze_ratings_float in E.
  2:{ eapply Forall_incl; [apply filter_rows_incl|apply preprocess_float]. }
  injection E as <- <- <-.
  destruct (Has (clean parse_decimal (mkRow (Str "6.0") (Str "Drama") (Str "UK")))
                (match parse_decimal "6.0" with Some q => q | None => Q2Qc 0 end))
    as (col & v & Hc & Hv).
  - vm_compute. right. left. reflexivity.
  - vm_compute. reflexivity.
  - exists col, v. split; [exact Hc|]. split; [exact Hv|].
    exact (Entry _ _ _ _ Hc Hv).
Defined.

(** * Part III: further properties of the code *)

(** ** Requests that retain everything or nothing *)

Lemma analyze_ratings_nil : analyze_ratings [] = inr ([], [], mkPivot [] []).
Proof. reflexivity. Qed.

(** X1.  Lines 74-81: a field that is absent or empty filters nothing, so
    with both fields so the whole cleaned frame is analysed; and a genre (or
    a country) that no row has retains no row, and the three tables are
    empty. *)
Theorem filter_rows_all_or_nothing :
  (forall genre_arg country_arg df,
     truthy genre_arg = false -> truthy country_arg = false ->
     filter_rows genre_arg country_arg df = df) /\
  (forall g country_arg df,
     g <> "" -> Forall (fun r => genre r <> Str g) df ->
     filter_rows (Some g) country_arg df = [] /\
     analyze_ratings (filter_rows (Some g) country_arg df)
     = inr ([], [], mkPivot [] [])) /\
  (forall genre_arg c df,
     c <> "" -> Forall (fun r => country r <> Str c) df ->
     filter_rows genre_arg (Some c) df = [] /\
     analyze_ratings (filter_rows genre_arg (Some c) df)
     = inr ([], [], mkPivot [] [])).
Proof.
  split; [|split].
  - intros ga ca df Hg Hc. unfold filter_rows.
    destruct ga as [g|], ca as [c|]; rewrite ?Hg, ?Hc; reflexivity.
  - intros g ca df Hg Hn.
    assert (E : filter_rows (Some g) ca df = []).
    { destruct (filter_rows (Some g) ca df) as [|r t] eqn:F; [reflexivity|].
      exfalso.
      assert (Hr : In r (filter_rows (Some g) ca df)) by (rewrite F; now left).
      apply filter_rows_In in Hr. destruct Hr as (Hr & G & _).
      rewrite Forall_forall in Hn. apply (Hn r Hr). now apply G. }
    rewrite E. split; reflexivity.
  - intros ga c df Hc Hn.
    assert (E : filter_rows ga (Some c) df = []).
    { destruct (filter_rows ga (Some c) df) as [|r t] eqn:F; [reflexivity|].
      exfalso.
      assert (Hr : In r (filter_rows ga (Some c) df)) by (rewrite F; now left).
      apply filter_rows_In in Hr. destruct Hr as (Hr & _ & C).
      rewrite Forall_forall in Hn. apply (Hn r Hr). now apply C. }
    rewrite E. split; reflexivity.
Qed.

Lemma filter_rows_all_or_nothing_witness :
  filter_rows (Some "") None (preprocess parse_decimal sample_table)
  = preprocess parse_decimal sample_table /\
  filter_rows (Some "Western") None (preprocess parse_decimal sample_table) = [].
Proof.
  destruct filter_rows_all_or_nothing as (All & NoGenre & _). split.
  - apply All; reflexivity.
  - apply NoGenre; [discriminate|].
    vm_compute. repeat constructor; discriminate.
Defined.

(** ** Country names in the country table *)

Lemma filter_map_comm {A B : Type} (f : A -> B) (p : B -> bool) (l : list A) :
  filter p (map f l) = map f (filter (fun a => p (f a)) l).
Proof.
  induction l as [|a t IH]; simpl; [reflexivity|].
  destruct (p (f a)); simpl; now rewrite IH.
Qed.

Lemma existsb_filter_nil {A : Type} (p : A -> bool) (l : list A) :
  existsb p l = match filter p l with [] => false | _ :: _ => true end.
Proof.
  induction l as [|a t IH]; simpl; [reflexivity|].
  destruct (p a); simpl; [reflexivity|exact IH].
Qed.

Lemma replace_country_cases (s : string) :
  replace country_names (Str s) =
  if String.eqb s "United States" then Str "USA"
  else if String.eqb s "United Kingdom" then Str "UK"
  else Str s.
Proof.
  unfold replace, country_names, assoc.
  destruct (String.eqb s "United States"); [reflexivity|].
  destruct (String.eqb s "United Kingdom"); reflexivity.
Qed.

Lemma replace_country_eqb (short long : string) (c : cell) :
  In (long, short) country_names ->
  cell_eqb (Str short) (replace country_names c)
  = eq_str c short || eq_str c long.
Proof.
  intros H. destruct c as [|x|s]; try reflexivity.
  rewrite replace_country_cases. unfold eq_str.
  destruct H as [H|[H|[]]]; injection H as <- <-;
    destruct (String.eqb s "United States") eqn:E1;
    destruct (String.eqb s "United Kingdom") eqn:E2;
    try (apply String.eqb_eq in E1; subst s);
    try (apply String.eqb_eq in E2; subst s);
    try discriminate; try reflexivity;
    rewrite ?orb_false_r; unfold cell_eqb; apply String.eqb_sym.
Qed.

(** X2.  Lines 16 and 24: in the country table of the cleaned frame, the
    entry of USA is the mean over the rows of the table (without a missing
    value) whose country is USA or United States, and the entry of UK the
    mean over those whose country is UK or United Kingdom; there is no entry
    when there is no such row. *)
Theorem country_table_merges_names
  (to_float : string -> option Qc) (raw : DataFrame) (short long : string) :
  In (long, short) country_names ->
  assoc cell_eqb (Str short) (mean_by country (preprocess to_float raw)) =
  match filter (fun r0 => eq_str (country r0) short || eq_str (country r0) long)
               (dropna_subset raw) with
  | [] => None
  | rows => Some (series_mean
                    (map (fun r0 => to_numeric_coerce to_float (vote_average r0)) rows))
  end.
Proof.
  intros H. rewrite mean_by_lookup.
  2:{ eapply Forall_impl; [|apply preprocess_keys]. now intros ? [? ?]. }
  rewrite existsb_filter_nil, preprocess_map, filter_map_comm.
  erewrite (filter_ext _ (fun r0 => eq_str (country r0) short || eq_str (country r0) long)).
  2:{ intros r0. simpl. now apply replace_country_eqb. }
  destruct (filter _ (dropna_subset raw)) as [|r t]; [reflexivity|].
  rewrite map_map. reflexivity.
Qed.

Lemma country_table_merges_names_witness :
  assoc cell_eqb (Str "USA") (mean_by country (preprocess parse_decimal sample_table))
  = Some (series_mean [to_numeric_coerce parse_decimal (Str "8.5")]).
Proof.
  rewrite (country_table_merges_names parse_decimal sample_table "USA" "United States").
  - reflexivity.
  - left. reflexivity.
Defined.

(** ** Means stay within the ratings *)

Lemma Qc_of_nat_pos (n : nat) : (0 < n)%nat -> (Q2Qc 0 < Qc_of_nat n)%Qc.
Proof.
  intros H. unfold Qclt, Qc_of_nat, Qc_of_Z, Q2Qc. cbn [this]. rewrite !Qred_correct.
  change 0%Q with (inject_Z 0). rewrite <- Zlt_Qlt. lia.
Qed.

Lemma Qc_div_mult (x : Qc) (n : nat) :
  (0 < n)%nat -> ((x / Qc_of_nat n) * Qc_of_nat n = x)%Qc.
Proof.
  intros H. rewrite Qcmult_comm. apply Qcmult_div_r.
  intros E. apply (Qc_of_nat_neq0 n); [lia|exact E].
Qed.

Lemma Qc_sum_bounds (lo hi : Qc) (vs : list Qc) :
  Forall (fun v => (lo <= v)%Qc /\ (v <= hi)%Qc) vs ->
  (lo * Qc_of_nat (length vs) <= Qc_sum vs)%Qc /\
  (Qc_sum vs <= hi * Qc_of_nat (length vs))%Qc.
Proof.
  induction 1 as [|v t [L U] _ [IL IU]]; simpl.
  - change (Qc_of_nat 0) with (Q2Qc 0). rewrite !Qcmult_0_r. split; apply Qcle_refl.
  - rewrite Qc_of_nat_S, !Qcmult_plus_distr_r, !Qcmult_1_r.
    split; now apply Qcplus_le_compat.
Qed.

Lemma series_mean_bounds (lo hi : Qc) (xs : list cell) (m : Qc) :
  Forall (fun v => (lo <= v)%Qc /\ (v <= hi)%Qc) (numeric_values xs) ->
  series_mean xs = Num m -> (lo <= m)%Qc /\ (m <= hi)%Qc.
Proof.
  intros F. unfold series_mean.
  destruct (numeric_values xs) as [|v t] eqn:E; [discriminate|].
  intros [= <-]. destruct (Qc_sum_bounds lo hi _ F) as [L U].
  assert (P : (0 < length (v :: t))%nat) by (simpl; lia).
  split; apply Qcmult_lt_0_le_reg_r with (z := Qc_of_nat (length (v :: t)));
    try (now apply Qc_of_nat_pos); now rewrite Qc_div_mult.
Qed.

Lemma ratings_within_values (lo hi : Qc) (df : DataFrame) (p : row -> bool) :
  ratings_within lo hi df = true ->
  Forall (fun v => (lo <= v)%Qc /\ (v <= hi)%Qc)
         (numeric_values (map vote_average (filter p df))).
Proof.
  unfold ratings_within. rewrite forallb_forall, Forall_forall. intros H v Hv.
  unfold numeric_values in Hv. apply in_flat_map in Hv. destruct Hv as [c [Hc Hv]].
  apply in_map_iff in Hc. destruct Hc as [r [<- Hr]]. apply filter_In in Hr.
  specialize (H r (proj1 Hr)). destruct (vote_average r) as [|x|s]; simpl in Hv; try tauto.
  destruct Hv as [<-|[]]. apply andb_true_iff in H. now rewrite <- !Qc_leb_le.
Qed.

(** X3.  Lines 22-24, in exact arithmetic: when every numeric rating of a
    frame lies between two bounds, so does every numeric mean of the genre
    table and of the country table.  (The float64 division of the sum by the
    count can leave the range by a rounding error in the last bit, which the
    rational means here do not have.) *)
Theorem means_within_ratings (lo hi : Qc) (df : DataFrame) (key : row -> cell)
  (k : cell) (m : Qc) :
  ratings_within lo hi df = true ->
  In (k, Num m) (mean_by key df) ->
  (lo <= m)%Qc /\ (m <= hi)%Qc.
Proof.
  intros W H. unfold mean_by in H.
  apply (Permutation_in _ (Permutation_sym (sort_values_desc_perm _))) in H.
  apply (In_assoc cell_eqb cell_eqb_eq) in H.
  2:{ rewrite (groupby_mean_keys cell_eqb). apply (factorize_NoDup cell_eqb), cell_eqb_eq. }
  rewrite (groupby_mean_lookup cell_eqb cell_leb isna cell_eqb_eq), keyed_filter in H.
  destruct (existsb _ _); [|discriminate]. injection H as H.
  eapply series_mean_bounds; [|exact H]. now apply ratings_within_values.
Qed.

Lemma means_within_ratings_witness :
  (Q2Qc 0 <= Q2Qc (29 # 4))%Qc /\ (Q2Qc (29 # 4) <= Q2Qc 10)%Qc.
Proof.
  apply (means_within_ratings (Q2Qc 0) (Q2Qc 10)
           (preprocess parse_decimal sample_table) genre (Str "Drama")).
  - vm_compute. reflexivity.
  - vm_compute. left. reflexivity.
Defined.

(** ** The order of the rows of the table *)

Lemma Permutation_filter_own {A : Type} (p : A -> bool) (l l' : list A) :
  Permutation l l' -> Permutation (filter p l) (filter p l').
Proof.
  induction 1 as [|a l l' _ IH|a b l|l1 l2 l3 _ IH1 _ IH2]; simpl.
  - constructor.
  - destruct (p a); [now constructor|exact IH].
  - destruct (p a), (p b); try reflexivity. apply perm_swap.
  - now transitivity (filter p l2).
Qed.

Lemma Permutation_existsb_own {A : Type} (p : A -> bool) (l l' : list A) :
  Permutation l l' -> existsb p l = existsb p l'.
Proof.
  intros H. apply bool_eq_iff. rewrite !existsb_exists.
  split; intros [x [Hx Px]]; exists x; split; auto.
  - eapply Permutation_in; [exact H|exact Hx].
  - eapply Permutation_in; [symmetry; exact H|exact Hx].
Qed.

Lemma Qc_sum_perm (l l' : list Qc) : Permutation l l' -> Qc_sum l = Qc_sum l'.
Proof.
  induction 1 as [|a l l' _ IH|a b l|l1 l2 l3 _ IH1 _ IH2]; simpl.
  - reflexivity.
  - now rewrite IH.
  - rewrite !Qcplus_assoc. f_equal. apply Qcplus_comm.
  - congruence.
Qed.

Lemma numeric_values_perm (xs xs' : list cell) :
  Permutation xs xs' -> Permutation (numeric_values xs) (numeric_values xs').
Proof.
  induction 1 as [|a l l' _ IH|a b l|l1 l2 l3 _ IH1 _ IH2]; simpl.
  - constructor.
  - now apply Permutation_app_head.
  - rewrite !app_assoc. apply Permutation_app_tail, Permutation_app_comm.
  - now transitivity (numeric_values l2).
Qed.

Lemma series_mean_perm (xs xs' : list cell) :
  Permutation xs xs' -> series_mean xs = series_mean xs'.
Proof.
  intros H. apply numeric_values_perm in H. unfold series_mean.
  pose proof (Qc_sum_perm _ _ H) as S. pose proof (Permutation_length H) as L.
  destruct (numeric_values xs) as [|v t], (numeric_values xs') as [|v' t'];
    try reflexivity; try discriminate.
  now rewrite S, L.
Qed.

Section SortedUnique.
Context {A : Type}.
Variable leb : A -> A -> bool.
Hypothesis leb_total : forall a b, leb a b = false -> leb b a = true.
Hypothesis leb_trans :
  forall a b c, leb a b = true -> leb b c = true -> leb a c = true.
Hypothesis leb_antisym : forall a b, leb a b = true -> leb b a = true -> a = b.

Lemma sorted_perm_eq (l l' : list A) :
  StronglySorted (fun a b => leb a b = true) l ->
  StronglySorted (fun a b => leb a b = true) l' ->
  Permutation l l' -> l = l'.
Proof.
  intros S. revert l'. induction S as [|h t St IH Hh]; intros l' S' P.
  - apply Permutation_nil in P. now subst.
  - destruct S' as [|h' t' St' Hh'].
    + symmetry in P. apply Permutation_nil in P. discriminate.
    + assert (E : h = h').
      { assert (I : In h (h' :: t')) by (eapply Permutation_in; [exact P|now left]).
        assert (I' : In h' (h :: t))
          by (eapply Permutation_in; [symmetry; exact P|now left]).
        destruct I as [->|I]; [reflexivity|].
        destruct I' as [->|I']; [reflexivity|].
        rewrite Forall_forall in Hh, Hh'. apply leb_antisym; auto. }
      subst h'. f_equal. apply IH; [exact St'|].
      now apply Permutation_cons_inv with h.
Qed.

Lemma isort_perm_eq (l l' : list A) :
  Permutation l l' -> isort leb l = isort leb l'.
Proof.
  intros P. apply sorted_perm_eq; try now apply isort_sorted.
  rewrite <- !isort_perm. exact P.
Qed.
End SortedUnique.

Section GroupByOrder.
Context {K : Type}.
Variable key_eqb : K -> K -> bool.
Variable key_leb : K -> K -> bool.
Variable key_isna : K -> bool.
Hypothesis key_eqb_eq : forall a b, key_eqb a b = true <-> a = b.
Hypothesis key_leb_total : forall a b, key_leb a b = false -> key_leb b a = true.
Hypothesis key_leb_trans :
  forall a b c, key_leb a b = true -> key_leb b c = true -> key_leb a c = true.
Hypothesis key_leb_antisym :
  forall a b, key_leb a b = true -> key_leb b a = true -> a = b.

Lemma factorize_perm (keys keys' : list K) :
  Permutation keys keys' ->
  factorize key_eqb key_leb key_isna keys = factorize key_eqb key_leb key_isna keys'.
Proof.
  intros P. unfold factorize.
  apply (isort_perm_eq key_leb key_leb_total key_leb_trans key_leb_antisym).
  apply NoDup_Permutation; try now apply dedup_NoDup.
  intros k. rewrite !(dedup_In key_eqb key_eqb_eq), !filter_In.
  split; intros [H1 H2]; (split; [|exact H2]).
  - eapply Permutation_in; [exact P|exact H1].
  - eapply Permutation_in; [symmetry; exact P|exact H1].
Qed.

Lemma dict_ext {V : Type} (l1 l2 : list (K * V)) :
  map fst l1 = map fst l2 -> NoDup (map fst l1) ->
  (forall k, assoc key_eqb k l1 = assoc key_eqb k l2) -> l1 = l2.
Proof.
  revert l2. induction l1 as [|[k v] t IH]; intros [|[k' v'] t']; simpl;
    try discriminate; [reflexivity|].
  intros [= <- Ek] ND H. inversion ND as [|? ? Hn ND']; subst.
  pose proof (H k) as Hk. rewrite (eqb_refl key_eqb key_eqb_eq) in Hk.
  injection Hk as <-. f_equal. apply IH; auto.
  intros k0. specialize (H k0). destruct (key_eqb k0 k) eqn:E; [|exact H].
  apply key_eqb_eq in E. subst k0.
  transitivity (@None V); [|symmetry]; apply (assoc_None key_eqb key_eqb_eq);
    [|rewrite <- Ek]; exact Hn.
Qed.

Lemma groupby_mean_perm (rows rows' : list (K * cell)) :
  Permutation rows rows' ->
  groupby_mean key_eqb key_leb key_isna rows
  = groupby_mean key_eqb key_leb key_isna rows'.
Proof.
  intros P.
  assert (F : factorize key_eqb key_leb key_isna (map fst rows)
              = factorize key_eqb key_leb key_isna (map fst rows')).
  { apply factorize_perm. now apply Permutation_map. }
  apply dict_ext.
  - now rewrite !(groupby_mean_keys key_eqb).
  - rewrite (groupby_mean_keys key_eqb). now apply factorize_NoDup.
  - intros k. rewrite !(groupby_mean_lookup key_eqb key_leb key_isna key_eqb_eq), F.
    destruct (existsb _ _); [|reflexivity]. f_equal.
    apply series_mean_perm, Permutation_map. now apply Permutation_filter_own.
Qed.
End GroupByOrder.

Lemma cell_leb_antisym (a b : cell) :
  cell_leb a b = true -> cell_leb b a = true -> a = b.
Proof.
  destruct a as [|x|s], b as [|y|t]; simpl; try discriminate; auto.
  - rewrite !Qc_leb_le. intros H1 H2. f_equal. now apply Qcle_antisym.
  - intros H1 H2. f_equal. now apply String.leb_antisym.
Qed.

Lemma pair_leb_total (a b : cell * cell) :
  pair_leb a b = false -> pair_leb b a = true.
Proof.
  unfold pair_leb. destruct (cell_eqb (fst a) (fst b)) eqn:E.
  - apply cell_eqb_eq in E. rewrite E, (eqb_refl cell_eqb cell_eqb_eq).
    apply cell_leb_total.
  - destruct (cell_eqb (fst b) (fst a)) eqn:E'.
    + apply cell_eqb_eq in E'. rewrite E', (eqb_refl cell_eqb cell_eqb_eq) in E.
      discriminate.
    + apply cell_leb_total.
Qed.

Lemma pair_leb_antisym (a b : cell * cell) :
  pair_leb a b = true -> pair_leb b a = true -> a = b.
Proof.
  destruct a as [a1 a2], b as [b1 b2]. unfold pair_leb. simpl.
  destruct (cell_eqb a1 b1) eqn:E.
  - apply cell_eqb_eq in E. subst. rewrite (eqb_refl cell_eqb cell_eqb_eq).
    intros H1 H2. f_equal. now apply cell_leb_antisym.
  - destruct (cell_eqb b1 a1) eqn:E'.
    + apply cell_eqb_eq in E'. subst. now rewrite (eqb_refl cell_eqb cell_eqb_eq) in E.
    + intros H1 H2. apply (eqb_neq cell_eqb cell_eqb_eq) in E.
      exfalso. apply E. now apply cell_leb_antisym.
Qed.

Lemma pair_leb_trans (a b c : cell * cell) :
  pair_leb a b = true -> pair_leb b c = true -> pair_leb a c = true.
Proof.
  destruct a as [a1 a2], b as [b1 b2], c as [c1 c2]. unfold pair_leb. simpl.
  destruct (cell_eqb a1 b1) eqn:Eab; destruct (cell_eqb b1 c1) eqn:Ebc.
  - apply cell_eqb_eq in Eab, Ebc. subst.
    rewrite (eqb_refl cell_eqb cell_eqb_eq). apply cell_leb_trans.
  - apply cell_eqb_eq in Eab. subst. rewrite Ebc. auto.
  - apply cell_eqb_eq in Ebc. subst. rewrite Eab. auto.
  - intros H1 H2. destruct (cell_eqb a1 c1) eqn:Eac.
    + apply cell_eqb_eq in Eac. subst c1.
      apply (eqb_neq cell_eqb cell_eqb_eq) in Eab. exfalso. apply Eab.
      now apply cell_leb_antisym.
    + now apply cell_leb_trans with b1.
Qed.

Lemma mean_by_perm (key : row -> cell) (df df' : DataFrame) :
  Permutation df df' -> mean_by key df = mean_by key df'.
Proof.
  intros P. unfold mean_by. f_equal.
  apply (groupby_mean_perm cell_eqb cell_leb isna cell_eqb_eq
           cell_leb_total cell_leb_trans cell_leb_antisym).
  now apply Permutation_map.
Qed.

Lemma pivot_table_perm (df df' : DataFrame) :
  Permutation df df' -> pivot_table df = pivot_table df'.
Proof.
  intros P. unfold pivot_table.
  rewrite (groupby_mean_perm pair_eqb pair_leb pair_isna pair_eqb_eq
             pair_leb_total pair_leb_trans pair_leb_antisym _
             (map (fun r => ((genre r, country r), vote_average r)) df')).
  - reflexivity.
  - now apply Permutation_map.
Qed.

Lemma filter_rows_perm (genre_arg country_arg : option string) (df df' : DataFrame) :
  Permutation df df' ->
  Permutation (filter_rows genre_arg country_arg df)
              (filter_rows genre_arg country_arg df').
Proof.
  intros P. unfold filter_rows.
  destruct genre_arg as [g|], country_arg as [c|];
    try destruct (truthy (Some g)); try destruct (truthy (Some c));
    repeat apply Permutation_filter_own; exact P.
Qed.

Lemma preprocess_perm (to_float : string -> option Qc) (raw raw' : DataFrame) :
  Permutation raw raw' ->
  Permutation (preprocess to_float raw) (preprocess to_float raw').
Proof.
  intros P. rewrite !preprocess_map. apply Permutation_map.
  now apply Permutation_filter_own.
Qed.

(** X4.  Lines 9-27 and 74-81: the order of the rows of the table does not
    matter.  Two tables with the same rows in another order give, for the
    same form fields, the same genre table, country table and pivot table
    (in exact arithmetic), or the same exception. *)
Theorem tables_independent_of_row_order
  (to_float : string -> option Qc) (raw raw' : DataFrame)
  (genre_arg country_arg : option string) :
  Permutation raw raw' ->
  analyze_ratings (filter_rows genre_arg country_arg (preprocess to_float raw))
  = analyze_ratings (filter_rows genre_arg country_arg (preprocess to_float raw')).
Proof.
  intros P.
  assert (Q : Permutation (filter_rows genre_arg country_arg (preprocess to_float raw))
                          (filter_rows genre_arg country_arg (preprocess to_float raw'))).
  { now apply filter_rows_perm, preprocess_perm. }
  unfold analyze_ratings.
  rewrite (Permutation_existsb_own _ _ _ Q).
  rewrite (mean_by_perm genre _ _ Q), (mean_by_perm country _ _ Q), (pivot_table_perm _ _ Q).
  reflexivity.
Qed.

Lemma tables_independent_of_row_order_witness :
  analyze_ratings (filter_rows (Some "Drama") None (preprocess parse_decimal sample_table))
  = analyze_ratings
      (filter_rows (Some "Drama") None (preprocess parse_decimal (rev sample_table))).
Proof.
  apply tables_independent_of_row_order. apply Permutation_rev.
Defined.

(** ** The shape of the pivot table *)

(** X5.  Line 26: the pivot table is a rectangle.  Its row labels and its
    column labels are present values, distinct and in ascending order; every
    column has one cell per row label, each a number or NaN; and no column
    is all NaN. *)
Theorem pivot_table_well_formed (df : DataFrame) :
  NoDup (p_index (pivot_table df)) /\
  StronglySorted (fun a b => cell_leb a b = true) (p_index (pivot_table df)) /\
  Forall (fun g => isna g = false) (p_index (pivot_table df)) /\
  NoDup (map fst (p_columns (pivot_table df))) /\
  StronglySorted (fun a b => cell_leb a b = true)
                 (map fst (p_columns (pivot_table df))) /\
  Forall (fun col =>
            isna (fst col) = false /\
            length (snd col) = length (p_index (pivot_table df)) /\
            existsb notna (snd col) = true /\
            Forall (fun v => is_str v = false) (snd col))
         (p_columns (pivot_table df)).
Proof.
  unfold pivot_table. cbn [p_index p_columns].
  set (agged := filter _ (groupby_mean pair_eqb pair_leb pair_isna _)).
  set (index := factorize cell_eqb cell_leb isna (map (fun e => fst (fst e)) agged)).
  set (columns := factorize cell_eqb cell_leb isna (map (fun e => snd (fst e)) agged)).
  set (f := fun c g => match assoc pair_eqb (g, c) agged with Some v => v | None => NaN end).
  change (map _ columns) with (map (fun c => (c, map (f c) index)) columns).
  assert (Sc : StronglySorted (fun a b => cell_leb a b = true) columns).
  { apply isort_sorted; [apply cell_leb_total|apply cell_leb_trans]. }
  assert (Keys : map fst (filter (fun col : cell * list cell => existsb notna (snd col))
                            (map (fun c => (c, map (f c) index)) columns))
                 = filter (fun c => existsb notna (map (f c) index)) columns).
  { clear. induction columns as [|c t IH]; simpl; [reflexivity|].
    destruct (existsb notna (map (f c) index)); simpl; now rewrite IH. }
  split; [apply (factorize_NoDup cell_eqb), cell_eqb_eq|].
  split; [apply isort_sorted; [apply cell_leb_total|apply cell_leb_trans]|].
  split.
  { rewrite Forall_forall. intros g Hg.
    now apply (factorize_In cell_eqb cell_leb isna cell_eqb_eq) in Hg. }
  rewrite Keys. split; [apply NoDup_filter, (factorize_NoDup cell_eqb), cell_eqb_eq|].
  split.
  { clear Keys. induction Sc as [|c t St IH Hc]; simpl; [constructor|].
    destruct (existsb notna (map (f c) index)); [|exact IH].
    constructor; [exact IH|]. rewrite Forall_forall in *. intros b Hb.
    apply Hc. now apply filter_In in Hb. }
  rewrite Forall_forall. intros [c vs] Hcol. apply filter_In in Hcol.
  destruct Hcol as [Hin Hex]. apply in_map_iff in Hin.
  destruct Hin as [c' [[= -> <-] Hc']]. cbn [fst snd] in *.
  split; [now apply (factorize_In cell_eqb cell_leb isna cell_eqb_eq) in Hc'|].
  split; [apply length_map|]. split; [exact Hex|].
  rewrite Forall_forall. intros v Hv. apply in_map_iff in Hv.
  destruct Hv as [g [<- _]]. unfold f.
  destruct (assoc pair_eqb (g, c) agged) as [v|] eqn:E; [|reflexivity].
  apply (assoc_In pair_eqb pair_eqb_eq) in E. apply filter_In in E.
  pose proof (groupby_mean_values pair_eqb pair_leb pair_isna
                (map (fun r => ((genre r, country r), vote_average r)) df)) as V.
  rewrite Forall_forall in V. exact (V _ (proj1 E)).
Qed.

(** ** What [generate_plots] leaves on the file system *)

Lemma bind_ret_apply {A B : Type} (a : A) (k : A -> py B) (w : world) :
  bind (ret a) k w = k a w.
Proof. reflexivity. Qed.

Lemma bind_raise_apply {A B : Type} (e : exn) (k : A -> py B) (w : world) :
  bind (raise e) k w = Raises e w.
Proof. reflexivity. Qed.

Lemma bind_savefig_apply {B : Type} (p : string) (f : figure) (k : unit -> py B)
  (w : world) :
  bind (plt_savefig p f) k w =
  match w (dirname p) with
  | Some Directory => k tt (write p (ImageFile f) w)
  | Some _ => Raises NotADirectoryError w
  | None => Raises FileNotFoundError w
  end.
Proof.
  unfold bind, plt_savefig. now destruct (w (dirname p)) as [[| | |]|].
Qed.

Section PlotFacts.
Variable draw_error : figure -> option exn.

Lemma bind_draw_apply {B : Type} (f : figure) (k : figure -> py B) (w : world) :
  bind (draw draw_error f) k w =
  match draw_error f with
  | Some e => Raises e w
  | None => k f w
  end.
Proof. unfold bind, draw. now destruct (draw_error f). Qed.

Lemma ensure_static_lookup (w : world) :
  ensure_static w "static" =
  match static_state w with
  | NotDirectory => w "static"
  | _ => Some Directory
  end.
Proof.
  unfold ensure_static, static_state.
  destruct (w "static") as [[| | |]|] eqn:E; try exact E; reflexivity.
Qed.

Lemma ensure_static_not_directory (w : world) :
  static_state w = NotDirectory ->
  ensure_static w = w /\ exists n, w "static" = Some n /\ n <> Directory.
Proof.
  unfold ensure_static, static_state.
  destruct (w "static") as [[| | |]|]; try discriminate; intros _;
    (split; [reflexivity|]); eexists; (split; [reflexivity|discriminate]).
Qed.

(** Every way [generate_plots] can end, with the file system it leaves. *)
Lemma generate_plots_outcome (df : DataFrame) (w : world) :
  generate_plots draw_error df "static" w =
  if existsb (fun r => is_str (vote_average r)) df
  then Raises TypeError (ensure_static w)
  else match draw_error (genre_bar_figure df) with
       | Some e => Raises e (ensure_static w)
       | None =>
           match static_state w with
           | NotDirectory => Raises NotADirectoryError w
           | _ =>
               match draw_error (heatmap_figure df) with
               | Some e => Raises e (saved_1 df w)
               | None =>
                   match draw_error (boxplot_figure df) with
                   | Some e => Raises e (saved_2 df w)
                   | None => Returns tt (saved_3 df w)
                   end
               end
           end
       end.
Proof.
  rewrite generate_plots_unfold.
  unfold draw_and_save, mean_by_checked, pivot_table_checked.
  destruct (existsb (fun r => is_str (vote_average r)) df); [reflexivity|].
  rewrite bind_ret_apply, bind_draw_apply. fold (genre_bar_figure df).
  destruct (draw_error (genre_bar_figure df)) as [e|]; [reflexivity|].
  rewrite bind_savefig_apply.
  change (dirname (os_path_join "static" "genre_ratings.png")) with "static".
  rewrite ensure_static_lookup.
  destruct (static_state w) eqn:St.
  3:{ destruct (ensure_static_not_directory w St) as [Ew [n [E Hn]]].
      rewrite E, Ew. destruct n; [contradiction| | |]; reflexivity. }
  all: change (write (os_path_join "static" "genre_ratings.png")
                 (ImageFile (genre_bar_figure df)) (ensure_static w))
         with (saved_1 df w);
    rewrite bind_ret_apply, bind_draw_apply; fold (heatmap_figure df);
    (destruct (draw_error (heatmap_figure df)) as [e|]; [reflexivity|]);
    rewrite bind_savefig_apply;
    change (dirname (os_path_join "static" "genre_country_heatmap.png")) with "static";
    change (saved_1 df w "static") with (ensure_static w "static");
    rewrite ensure_static_lookup, St;
    change (write (os_path_join "static" "genre_country_heatmap.png")
              (ImageFile (heatmap_figure df)) (saved_1 df w))
      with (saved_2 df w);
    rewrite bind_draw_apply; fold (boxplot_figure df);
    (destruct (draw_error (boxplot_figure df)) as [e|]; [reflexivity|]);
    unfold plt_savefig;
    change (dirname (os_path_join "static" "genre_boxplot.png")) with "static";
    change (saved_2 df w "static") with (ensure_static w "static");
    rewrite ensure_static_lookup, St; reflexivity.
Qed.

Lemma not_plot_path (p : string) :
  ~ In p plot_paths ->
  String.eqb p "static" = false /\
  String.eqb p "static/genre_ratings.png" = false /\
  String.eqb p "static/genre_country_heatmap.png" = false /\
  String.eqb p "static/genre_boxplot.png" = false.
Proof.
  intros H. repeat split; apply String.eqb_neq; intros ->; apply H;
    unfold plot_paths; simpl; tauto.
Qed.

Lemma ensure_static_other (w : world) (p : string) :
  String.eqb p "static" = false -> ensure_static w p = w p.
Proof.
  intros H. unfold ensure_static. destruct (w "static"); [reflexivity|].
  now apply write_other.
Qed.

Lemma saved_other (df : DataFrame) (w : world) (p : string) :
  ~ In p plot_paths ->
  ensure_static w p = w p /\ saved_1 df w p = w p /\
  saved_2 df w p = w p /\ saved_3 df w p = w p.
Proof.
  intros H. destruct (not_plot_path p H) as (E0 & E1 & E2 & E3).
  unfold saved_3, saved_2, saved_1.
  rewrite !write_other by assumption. rewrite ensure_static_other by assumption. tauto.
Qed.

(** Apart from [static] and the three image files, [generate_plots] leaves
    every path as it was, however it ends. *)
Lemma generate_plots_frame (df : DataFrame) (w : world) (p : string) :
  ~ In p plot_paths ->
  the_world (generate_plots draw_error df "static" w) p = w p.
Proof.
  intros H. destruct (saved_other df w p H) as (E0 & E1 & E2 & E3).
  rewrite generate_plots_outcome.
  destruct (existsb _ df); [exact E0|].
  destruct (draw_error (genre_bar_figure df)); [exact E0|].
  destruct (static_state w); try reflexivity;
    (destruct (draw_error (heatmap_figure df)); [exact E1|]);
    (destruct (draw_error (boxplot_figure df)); [exact E2|exact E3]).
Qed.

(** When [generate_plots] returns, this is why and what it leaves. *)
Lemma generate_plots_returns (df : DataFrame) (w w' : world) (u : unit) :
  generate_plots draw_error df "static" w = Returns u w' ->
  w' = saved_3 df w /\ ensure_static w "static" = Some Directory /\
  existsb (fun r => is_str (vote_average r)) df = false /\
  draw_error (genre_bar_figure df) = None /\
  draw_error (heatmap_figure df) = None /\
  draw_error (boxplot_figure df) = None.
Proof.
  rewrite generate_plots_outcome, ensure_static_lookup.
  destruct (existsb _ df); [discriminate|].
  destruct (draw_error (genre_bar_figure df)); [discriminate|].
  destruct (static_state w); try discriminate;
    (destruct (draw_error (heatmap_figure df)); [discriminate|]);
    (destruct (draw_error (boxplot_figure df)); [discriminate|]);
    intros [= _ <-]; repeat split.
Qed.

(** X6.  Lines 30-58: when [generate_plots] returns, [static] is a
    directory, the three image files hold the bar chart of the genre means,
    the heatmap of the pivot table and the box plot of the frame it was
    given, and every other path is as it was. *)
Theorem generate_plots_postcondition (df : DataFrame) (w w' : world) (u : unit) :
  generate_plots draw_error df "static" w = Returns u w' ->
  w' "static" = Some Directory /\
  w' "static/genre_ratings.png" = Some (ImageFile (genre_bar_figure df)) /\
  w' "static/genre_country_heatmap.png" = Some (ImageFile (heatmap_figure df)) /\
  w' "static/genre_boxplot.png" = Some (ImageFile (boxplot_figure df)) /\
  (forall p, ~ In p plot_paths -> w' p = w p).
Proof.
  intros H. destruct (generate_plots_returns _ _ _ _ H) as (-> & S & _).
  split; [exact S|]. repeat split.
  intros p Hp. now destruct (saved_other df w p Hp) as (_ & _ & _ & E).
Qed.

(** X7.  Lines 31-32 test that [static] exists, not that it is a directory:
    when [static] is a file, nothing is created or written, and saving the
    first chart fails. *)
Theorem generate_plots_static_is_a_file (df : DataFrame) (w : world) :
  static_state w = NotDirectory ->
  existsb (fun r => is_str (vote_average r)) df = false ->
  draw_error (genre_bar_figure df) = None ->
  generate_plots draw_error df "static" w = Raises NotADirectoryError w.
Proof.
  intros S N D. now rewrite generate_plots_outcome, N, D, S.
Qed.

(** X8.  Lines 30-58: running [generate_plots] again on the same frame
    returns again and changes nothing: the second run recreates the same
    three files. *)
Theorem generate_plots_idempotent (df : DataFrame) (w w1 : world) (u : unit) :
  generate_plots draw_error df "static" w = Returns u w1 ->
  exists w2,
    generate_plots draw_error df "static" w1 = Returns tt w2 /\
    forall p, w2 p = w1 p.
Proof.
  intros H. destruct (generate_plots_returns _ _ _ _ H) as (-> & S & N & D1 & D2 & D3).
  assert (S3 : saved_3 df w "static" = Some Directory) by exact S.
  assert (St : static_state (saved_3 df w) = IsDirectory).
  { unfold static_state. now rewrite S3. }
  exists (saved_3 df (saved_3 df w)).
  split; [now rewrite generate_plots_outcome, N, D1, St, D2, D3|].
  intros p. unfold saved_3 at 1, saved_2 at 1, saved_1 at 1, write at 1 2 3.
  destruct (String.eqb p "static/genre_boxplot.png") eqn:E3;
    [apply String.eqb_eq in E3; now subst|].
  destruct (String.eqb p "static/genre_country_heatmap.png") eqn:E2;
    [apply String.eqb_eq in E2; now subst|].
  destruct (String.eqb p "static/genre_ratings.png") eqn:E1;
    [apply String.eqb_eq in E1; now subst|].
  unfold ensure_static. now rewrite S3.
Qed.
End PlotFacts.

Lemma generate_plots_postcondition_witness :
  saved_3 (preprocess parse_decimal sample_table) sample_world
    "static/genre_ratings.png"
  = Some (ImageFile (genre_bar_figure (preprocess parse_decimal sample_table))).
Proof.
  apply (generate_plots_postcondition draws_all
           (preprocess parse_decimal sample_table) sample_world
           (saved_3 (preprocess parse_decimal sample_table) sample_world) tt).
  vm_compute. reflexivity.
Defined.

Lemma generate_plots_static_is_a_file_witness :
  generate_plots draws_all (preprocess parse_decimal sample_table) "static"
    (write "static" OtherFile sample_world)
  = Raises NotADirectoryError (write "static" OtherFile sample_world).
Proof.
  apply generate_plots_static_is_a_file; reflexivity.
Defined.

Lemma generate_plots_idempotent_witness :
  exists w2,
    generate_plots draws_all (preprocess parse_decimal sample_table) "static"
      (saved_3 (preprocess parse_decimal sample_table) sample_world)
    = Returns tt w2 /\
    forall p, w2 p = saved_3 (preprocess parse_decimal sample_table) sample_world p.
Proof.
  apply (generate_plots_idempotent draws_all
           (preprocess parse_decimal sample_table) sample_world _ tt).
  vm_compute. reflexivity.
Defined.

(** ** What requests do to the file system *)

Section RequestEffects.
Variable to_float : string -> option Qc.
Variable draw_error : figure -> option exn.

Lemma analyze_world (form : list (string * string)) (w : world) :
  the_world (analyze to_float draw_error form w) =
  match w csv_path with
  | Some (CsvFile table) =>
      the_world (generate_plots draw_error (preprocess to_float table) "static" w)
  | _ => w
  end.
Proof.
  unfold analyze, load_and_preprocess_data, bind at 1, bind at 1, pd_read_csv.
  destruct (w csv_path) as [[|table| |]|]; try reflexivity.
  unfold ret at 1, bind at 1.
  destruct (generate_plots _ _ _ w) as [[] w2|e w2]; [|reflexivity].
  unfold bind. now destruct (analyze_ratings _) as [e|[[gr cr] p]].
Qed.

Lemma main_world (w : world) :
  the_world (main to_float draw_error w) =
  match w csv_path with
  | Some (CsvFile table) =>
      the_world (generate_plots draw_error (preprocess to_float table) "static" w)
  | _ => w
  end.
Proof.
  unfold main, load_and_preprocess_data, bind at 1, bind at 1, pd_read_csv.
  now destruct (w csv_path) as [[|table| |]|].
Qed.

Lemma dispatch_post_analyze (form : list (string * string)) (w : world) :
  snd (dispatch to_float draw_error (mkRequest POST "/analyze" form) w)
  = the_world (analyze to_float draw_error form w).
Proof.
  unfold dispatch. simpl. now destruct (analyze to_float draw_error form w).
Qed.

(** X9.  Lines 67-72 and 93-95: the charts are drawn from the whole cleaned
    frame before the form fields are used.  A POST to /analyze leaves the
    file system that the start-up block leaves, whatever the genre and
    country fields; so the images never show the filtered selection. *)
Theorem analyze_files_do_not_depend_on_form
  (form form' : list (string * string)) (w : world) :
  snd (dispatch to_float draw_error (mkRequest POST "/analyze" form) w)
  = the_world (main to_float draw_error w) /\
  snd (dispatch to_float draw_error (mkRequest POST "/analyze" form) w)
  = snd (dispatch to_float draw_error (mkRequest POST "/analyze" form') w).
Proof.
  rewrite !dispatch_post_analyze, !analyze_world, main_world. split; reflexivity.
Qed.

Lemma dispatch_frame (req : request) (w : world) (p : string) :
  ~ In p plot_paths -> snd (dispatch to_float draw_error req w) p = w p.
Proof.
  intros H. unfold dispatch. rewrite find_rule_cases.
  destruct (match_rule (PathUnder "/static/") (req_path req)) as [filename|];
    [|destruct (String.eqb "/" (req_path req));
      [|destruct (String.eqb "/analyze" (req_path req))]]; try reflexivity.
  - destruct (negb _); [reflexivity|]. destruct (_ || _); reflexivity.
  - destruct (negb _); [reflexivity|]. destruct (_ || _); reflexivity.
  - destruct (negb _); [reflexivity|]. destruct (_ || _); [|reflexivity].
    cbn [endpoint_of].
    pose proof (analyze_world (req_form req) w) as W.
    destruct (analyze to_float draw_error (req_form req) w) as [b w'|e w'];
      cbn [snd the_world] in *; subst w';
      (destruct (w csv_path) as [[|table| |]|]; try reflexivity;
       now apply generate_plots_frame).
Qed.

(** X10.  Lines 63-72: only a POST to /analyze touches the file system, and
    no sequence of requests touches a path other than [static] and the three
    image files; the CSV file in particular is never modified. *)
Theorem requests_write_only_the_plots :
  (forall req w,
     req_method req <> POST \/ req_path req <> "/analyze" ->
     snd (dispatch to_float draw_error req w) = w) /\
  (forall reqs w p,
     ~ In p plot_paths -> serve to_float draw_error reqs w p = w p) /\
  (forall reqs w, serve to_float draw_error reqs w csv_path = w csv_path).
Proof.
  assert (F : forall reqs w p,
             ~ In p plot_paths -> serve to_float draw_error reqs w p = w p).
  { induction reqs as [|req rest IH]; intros w p H; simpl; [reflexivity|].
    rewrite IH by exact H. now apply dispatch_frame. }
  split; [|split; [exact F|]].
  - intros req w H. unfold dispatch. rewrite find_rule_cases.
    destruct (match_rule (PathUnder "/static/") (req_path req)) as [filename|];
      [|destruct (String.eqb "/" (req_path req)) eqn:E1;
        [|destruct (String.eqb "/analyze" (req_path req)) eqn:E2]]; try reflexivity.
    + destruct (negb _); [reflexivity|]. destruct (_ || _); reflexivity.
    + destruct (negb _); [reflexivity|]. destruct (_ || _); reflexivity.
    + apply String.eqb_eq in E2. cbn [methods allowed_methods].
      destruct (req_method req); try reflexivity.
      destruct H as [H|H]; [now contradiction H|now contradiction H].
  - intros reqs w. apply F. unfold plot_paths, csv_path. simpl.
    intros [H|[H|[H|[H|[]]]]]; discriminate.
Qed.
End RequestEffects.

Lemma requests_write_only_the_plots_witness :
  snd (dispatch parse_decimal draws_all (mkRequest GET "/analyze" []) sample_world)
  = sample_world.
Proof.
  apply (proj1 (requests_write_only_the_plots parse_decimal draws_all)).
  left. discriminate.
Defined.

(** ** When the split and the script are defined *)

Lemma n_test_of_small (n : nat) :
  (2 <= n)%nat -> (0 < n_test_of n)%nat /\ (n_test_of n < n)%nat.
Proof. intros H. pose proof (n_test_of_ceiling n). lia. Qed.

Lemma map_exn_head_fails {A B : Type} (f : A -> exn + B) (e : exn) (x : A)
  (l : list A) :
  f x = inl e -> map_exn f (x :: l) = inl e.
Proof. intros H. simpl. now rewrite H. Qed.

Section SplitDefined.
Variable permutation : nat -> list nat.

Lemma train_test_split_too_few (X : list (list Qc)) (y : list nat) :
  (length X < 2)%nat -> train_test_split permutation X y = inl ValueError.
Proof.
  intros H. unfold train_test_split.
  destruct (negb (length y =? length X)%nat); [reflexivity|].
  destruct X as [|a [|b t]]; [reflexivity|reflexivity|simpl in H; lia].
Qed.

(** X12.  Line 13: [train_test_split] raises [ValueError] when the labels
    are not as many as the samples, and when there are fewer than two
    samples (the training part would be empty); with two samples or more,
    shuffled, it returns a training part and a test part that are both
    non-empty and together as many as the samples. *)
Theorem train_test_split_defined :
  (forall (X : list (list Qc)) (y : list nat),
     length y <> length X ->
     train_test_split permutation X y = inl ValueError) /\
  (forall (X : list (list Qc)) (y : list nat),
     (length X < 2)%nat ->
     train_test_split permutation X y = inl ValueError) /\
  (forall (X : list (list Qc)) (y : list nat),
     length y = length X -> (2 <= length X)%nat ->
     is_shuffle (length X) (permutation (length X)) = true ->
     exists X_train X_test y_train y_test,
       train_test_split permutation X y = inr (X_train, X_test, y_train, y_test) /\
       X_train <> [] /\ X_test <> [] /\
       (length X_train + length X_test = length X)%nat /\
       length y_train = length X_train /\ length y_test = length X_test).
Proof.
  split; [|split].
  - intros X y H. unfold train_test_split.
    apply Nat.eqb_neq in H. now rewrite H.
  - apply train_test_split_too_few.
  - intros X y L N S. destruct (n_test_of_small _ N) as [P T].
    rewrite (train_test_split_ok permutation [] 0%nat X y L S T). cbv zeta.
    destruct (is_shuffle_spec _ _ S) as (Lp & _ & _).
    do 4 eexists. split; [reflexivity|].
    assert (L1 : length (skipn (n_test_of (length X)) (permutation (length X)))
                 = (length X - n_test_of (length X))%nat)
      by (rewrite length_skipn; lia).
    assert (L2 : length (firstn (n_test_of (length X)) (permutation (length X)))
                 = n_test_of (length X))
      by (rewrite length_firstn; lia).
    repeat split; rewrite ?length_map, ?L1, ?L2; try lia.
    + intros E. apply (f_equal (@length _)) in E. rewrite length_map, L1 in E.
      simpl in E. lia.
    + intros E. apply (f_equal (@length _)) in E. rewrite length_map, L2 in E.
      simpl in E. lia.
Qed.

(** X13.  Lines 8-21: on shuffled data with as many labels as samples, the
    script prints its line exactly when there are at least four samples;
    with fewer it ends in [ValueError] (no training part, or fewer training
    samples than the three neighbours asked for). *)
Theorem iris_classifier_needs_four_samples (nn : search) (X : list (list Qc))
  (y : list nat) :
  length y = length X ->
  is_shuffle (length X) (permutation (length X)) = true ->
  ((length X < 4)%nat -> iris_classifier nn X y permutation = inl ValueError) /\
  ((4 <= length X)%nat ->
   exists line, iris_classifier nn X y permutation = inr [line]).
Proof.
  intros L S. split.
  - intros H. destruct (le_lt_dec 2 (length X)) as [N|N].
    + destruct (n_test_of_small _ N) as [P T].
      pose proof (n_test_of_ceiling (length X)) as C.
      destruct (is_shuffle_spec _ _ S) as (Lp & _ & _).
      unfold iris_classifier.
      rewrite (train_test_split_ok permutation [] 0%nat X y L S T). cbv zeta.
      cbn [bind_exn]. unfold fit. rewrite !length_map, Nat.eqb_refl.
      cbn [negb bind_exn]. unfold score, predict.
      destruct (firstn (n_test_of (length X)) (permutation (length X)))
        as [|i rest] eqn:F.
      { apply (f_equal (@length _)) in F. rewrite length_firstn in F.
        simpl in F. lia. }
      cbn [map]. erewrite map_exn_head_fails; [reflexivity|].
      unfold predict_one, kneighbors. cbn [fit_X n_neighbors].
      rewrite length_map, length_skipn, Lp.
      destruct (length X - n_test_of (length X) <? 3)%nat eqn:E; [reflexivity|].
      apply Nat.ltb_ge in E. lia.
    + unfold iris_classifier. now rewrite (train_test_split_too_few X y N).
  - intros H. pose proof (n_test_of_ceiling (length X)) as C.
    assert (T : (n_test_of (length X) < length X)%nat) by lia.
    assert (E : (3 <= length X - n_test_of (length X))%nat) by lia.
    destruct (script_steps nn X y permutation L S T E) as (_ & _ & _ & _ & R).
    eexists. exact R.
Qed.
End SplitDefined.

Lemma train_test_split_defined_witness :
  exists X_train X_test y_train y_test,
    train_test_split toy_permutation (firstn 2 toy_data) (firstn 2 toy_target)
    = inr (X_train, X_test, y_train, y_test) /\ X_train <> [] /\ X_test <> [].
Proof.
  destruct (proj2 (proj2 (train_test_split_defined toy_permutation))
              (firstn 2 toy_data) (firstn 2 toy_target))
    as (X_train & X_test & y_train & y_test & E & N1 & N2 & _).
  - reflexivity.
  - simpl. lia.
  - vm_compute. reflexivity.
  - exists X_train, X_test, y_train, y_test. auto.
Defined.

Lemma iris_classifier_needs_four_samples_witness :
  iris_classifier brute_force (firstn 3 toy_data) (firstn 3 toy_target) toy_permutation
  = inl ValueError.
Proof.
  apply (iris_classifier_needs_four_samples toy_permutation brute_force
           (firstn 3 toy_data) (firstn 3 toy_target)).
  - reflexivity.
  - vm_compute. reflexivity.
  - simpl. lia.
Defined.

(** ** The two parts of the split *)

Lemma NoDup_app_disjoint {A : Type} (l1 l2 : list A) (x : A) :
  NoDup (l1 ++ l2) -> In x l1 -> In x l2 -> False.
Proof.
  induction l1 as [|a t IH]; simpl; intros N H1 H2; [tauto|].
  inversion N as [|? ? Hn N']; subst. destruct H1 as [->|H1].
  - apply Hn, in_or_app. now right.
  - now apply IH.
Qed.

(** X14.  Line 13: [train_test_split] deals the samples out by their
    indices.  On shuffled data of two samples or more, with as many labels,
    there are two lists of indices such that the training part holds the
    samples and the labels at the first and the test part those at the
    second; every index below the number of samples is in one of the two
    lists and none is in both; the test part has a fifth of them, rounded
    up. *)
Theorem split_indices_partition (permutation : nat -> list nat)
  (X : list (list Qc)) (y : list nat) :
  length y = length X ->
  (2 <= length X)%nat ->
  is_shuffle (length X) (permutation (length X)) = true ->
  exists ind_train ind_test,
    train_test_split permutation X y
    = inr (rows_at [] X ind_train, rows_at [] X ind_test,
           rows_at 0%nat y ind_train, rows_at 0%nat y ind_test) /\
    NoDup (ind_train ++ ind_test) /\
    (forall i, (i < length X)%nat <-> In i ind_train \/ In i ind_test) /\
    (forall i, In i ind_train -> In i ind_test -> False) /\
    length ind_test = n_test_of (length X) /\
    (length ind_train + length ind_test = length X)%nat.
Proof.
  intros Ly N2 S. set (n := length X) in *.
  destruct (is_shuffle_spec _ _ S) as (L & _ & ND).
  pose proof (is_shuffle_perm _ _ S) as P.
  pose proof (n_test_of_ceiling n) as C.
  destruct (n_test_of_small n N2) as [_ T].
  exists (train_indices permutation n), (test_indices permutation n).
  split.
  { unfold n in *.
    rewrite (train_test_split_ok permutation [] 0%nat X y Ly S T). reflexivity. }
  unfold train_indices, test_indices.
  assert (Q : Permutation (skipn (n_test_of n) (permutation n)
                           ++ firstn (n_test_of n) (permutation n))
                          (permutation n)).
  { rewrite Permutation_app_comm. now rewrite firstn_skipn. }
  assert (N : NoDup (skipn (n_test_of n) (permutation n)
                     ++ firstn (n_test_of n) (permutation n))).
  { eapply Permutation_NoDup; [symmetry; exact Q|exact ND]. }
  split; [exact N|]. split; [|split; [|split]].
  - intros i. rewrite <- in_app_iff. split.
    + intros H. apply (Permutation_in _ (Permutation_sym Q)).
      apply (Permutation_in _ (Permutation_sym P)). apply in_seq. lia.
    + intros H. apply (Permutation_in _ Q), (Permutation_in _ P), in_seq in H. lia.
  - intros i. now apply NoDup_app_disjoint.
  - rewrite length_firstn. lia.
  - rewrite length_firstn, length_skipn. lia.
Qed.

Lemma split_indices_partition_witness :
  exists ind_train ind_test,
    train_test_split toy_permutation toy_data toy_target
    = inr (rows_at [] toy_data ind_train, rows_at [] toy_data ind_test,
           rows_at 0%nat toy_target ind_train, rows_at 0%nat toy_target ind_test) /\
    NoDup (ind_train ++ ind_test) /\
    length ind_test = 30%nat.
Proof.
  destruct (split_indices_partition toy_permutation toy_data toy_target)
    as (ind_train & ind_test & E & N & _ & _ & L & _).
  - reflexivity.
  - apply Nat.leb_le. vm_compute. reflexivity.
  - vm_compute. reflexivity.
  - exists ind_train, ind_test. split; [exact E|]. split; [exact N|exact L].
Defined.

(** ** Labels and scores *)

Lemma mode_In (cs labels : list nat) : cs <> [] -> In (mode cs labels) cs.
Proof.
  destruct cs as [|c rest]; [contradiction|]. intros _. simpl.
  assert (G : forall rest best,
             let m := fold_left (fun best c' => if (votes labels best <? votes labels c')%nat
                                                then c' else best) rest best in
             m = best \/ In m rest).
  { clear. induction rest as [|a t IH]; intros best; simpl; [now left|].
    destruct (votes labels best <? votes labels a)%nat.
    - destruct (IH a) as [H|H]; [right; now left|right; now right].
    - destruct (IH best) as [H|H]; [now left|right; now right]. }
  destruct (G rest c) as [H|H]; [now left|now right].
Qed.

Lemma classes_In (m : KNeighborsClassifier) (c : nat) :
  In c (classes m) <-> In c (fit_y m).
Proof.
  unfold classes. rewrite isort_In. apply dedup_In. intros a b. apply Nat.eqb_eq.
Qed.

Lemma map_exn_inr {A B : Type} (f : A -> exn + B) (l : list A) (ys : list B) :
  map_exn f l = inr ys -> Forall2 (fun x y => f x = inr y) l ys.
Proof.
  revert ys. induction l as [|x t IH]; simpl; intros ys.
  - intros [= <-]. constructor.
  - destruct (f x) as [e|y0] eqn:E; [discriminate|]. simpl.
    destruct (map_exn f t) as [e|ys0]; [discriminate|]. simpl.
    intros [= <-]. constructor; [exact E|]. now apply IH.
Qed.

(** X15.  Lines 16-20: a fitted classifier answers with labels of its
    training samples only, one for each sample it is asked about. *)
Theorem predictions_are_training_labels (nn : search) (m : KNeighborsClassifier)
  (X : list (list Qc)) (y_pred : list nat) :
  fit_y m <> [] ->
  predict nn m X = inr y_pred ->
  length y_pred = length X /\ Forall (fun l => In l (fit_y m)) y_pred.
Proof.
  intros N H. apply map_exn_inr in H.
  split; [symmetry; now apply (Forall2_length H)|].
  induction H as [|x l t ys Hx _ IH]; constructor; [|exact IH].
  unfold predict_one in Hx. destruct (kneighbors nn m x) as [e|ind]; [discriminate|].
  simpl in Hx. injection Hx as <-. apply classes_In, mode_In.
  intros E. destruct (fit_y m) as [|c t0] eqn:F; [contradiction|].
  assert (I : In c (classes m)) by (apply classes_In; rewrite F; now left).
  now rewrite E in I.
Qed.

Lemma predictions_are_training_labels_witness :
  length [0%nat] = length [[Q2Qc 1]] /\
  Forall (fun l => In l [0%nat; 0%nat; 1%nat]) [0%nat].
Proof.
  apply (predictions_are_training_labels brute_force
           (mkKNN 3 [[Q2Qc 0]; [Q2Qc 2]; [Q2Qc 9]] [0%nat; 0%nat; 1%nat])
           [[Q2Qc 1]] [0%nat]).
  - discriminate.
  - vm_compute. reflexivity.
Defined.

Lemma correct_same (y : list nat) : correct y y = length y.
Proof.
  unfold correct. induction y as [|a t IH]; simpl; [reflexivity|].
  rewrite Nat.eqb_refl. simpl. now rewrite IH.
Qed.

Lemma fraction_bounds (k n : nat) :
  (k <= n)%nat ->
  (Q2Qc 0 <= Qc_of_nat k / Qc_of_nat n)%Qc /\ (Qc_of_nat k / Qc_of_nat n <= Q2Qc 1)%Qc.
Proof.
  intros H. destruct n as [|n'].
  - assert (k = 0)%nat by lia. subst k.
    change (Qc_of_nat 0) with (Q2Qc 0). unfold Qcdiv. rewrite Qcmult_0_l.
    split; [apply Qcle_refl|]. unfold Qcle. vm_compute. discriminate.
  - assert (P : (0 < S n')%nat) by lia.
    split; apply Qcmult_lt_0_le_reg_r with (z := Qc_of_nat (S n'));
      try (now apply Qc_of_nat_pos); rewrite Qc_div_mult by exact P.
    + rewrite Qcmult_0_l. change (Q2Qc 0) with (Qc_of_nat 0). apply Qc_of_nat_le. lia.
    + rewrite Qcmult_1_l. now apply Qc_of_nat_le.
Qed.

(** X16.  Line 20: the score is a fraction between 0 and 1, whatever the
    labels and the predictions, and it is 1 when every prediction is the
    true label. *)
Theorem accuracy_score_range :
  (forall y_true y_pred,
     (Q2Qc 0 <= accuracy_score y_true y_pred)%Qc /\
     (accuracy_score y_true y_pred <= Q2Qc 1)%Qc) /\
  (forall y_true, y_true <> [] -> accuracy_score y_true y_true = Q2Qc 1).
Proof.
  split.
  - intros y p. rewrite accuracy_score_fraction. apply fraction_bounds, correct_le.
  - intros y N. rewrite accuracy_score_fraction, correct_same.
    unfold Qcdiv. apply Qcmult_inv_r. apply Qc_of_nat_neq0.
    destruct y; [contradiction|discriminate].
Qed.

Lemma votes_all (c : nat) (labels : list nat) :
  Forall (fun l => l = c) labels -> votes labels c = length labels.
Proof.
  unfold votes. induction 1 as [|l t -> _ IH]; simpl; [reflexivity|].
  rewrite Nat.eqb_refl. simpl. now rewrite IH.
Qed.

Lemma votes_positive_In (c : nat) (labels : list nat) :
  (0 < votes labels c)%nat -> In c labels.
Proof.
  unfold votes. intros H.
  destruct (filter (Nat.eqb c) labels) as [|l t] eqn:F; [simpl in H; lia|].
  assert (I : In l (filter (Nat.eqb c) labels)) by (rewrite F; now left).
  apply filter_In in I. destruct I as [I E]. apply Nat.eqb_eq in E. now subst.
Qed.

(** X17.  Lines 16-20: when the nearest training samples that
    [kneighbors] picks all carry one label, that label is the prediction,
    whichever way the neighbour search orders samples at one distance. *)
Theorem unanimous_neighbours_decide (nn : search) (m : KNeighborsClassifier)
  (x : list Qc) (ind : list nat) (c : nat) :
  nearest_first nn ->
  length (fit_y m) = length (fit_X m) ->
  kneighbors nn m x = inr ind ->
  ind <> [] ->
  (forall i, In i ind -> nth i (fit_y m) 0%nat = c) ->
  predict_one nn m x = inr c.
Proof.
  intros Srt L K N H. unfold predict_one. rewrite K. simpl. f_equal.
  set (labels := map (fun i => nth i (fit_y m) 0%nat) ind).
  assert (A : Forall (fun l => l = c) labels).
  { unfold labels. rewrite Forall_forall. intros l Hl. apply in_map_iff in Hl.
    destruct Hl as [i [<- Hi]]. now apply H. }
  assert (Hc : In c (classes m)).
  { destruct ind as [|i rest]; [contradiction|].
    rewrite <- (H i (or_introl eq_refl)). apply classes_In, nth_In.
    unfold kneighbors in K. destruct (length (fit_X m) <? n_neighbors m)%nat;
      [discriminate|]. injection K as K.
    assert (I : In i (firstn (n_neighbors m) (nn m x)))
      by (rewrite K; now left).
    apply In_firstn in I.
    apply (Permutation_in _ (proj1 (Srt m x))), in_seq in I. rewrite L. lia. }
  pose proof (mode_most_voted labels (classes m) c Hc) as V.
  rewrite (votes_all c labels A) in V.
  assert (P : (0 < length labels)%nat).
  { unfold labels. rewrite length_map. destruct ind; [contradiction|simpl; lia]. }
  assert (I : In (mode (classes m) labels) labels) by (apply votes_positive_In; lia).
  rewrite Forall_forall in A. now apply A.
Qed.

Lemma unanimous_neighbours_decide_witness :
  predict_one brute_force
    (mkKNN 3 [[Q2Qc 0]; [Q2Qc 2]; [Q2Qc 9]; [Q2Qc 1]] [0%nat; 0%nat; 1%nat; 0%nat])
    [Q2Qc 1]
  = inr 0%nat.
Proof.
  apply (unanimous_neighbours_decide brute_force _ _ [3%nat; 0%nat; 1%nat]).
  - exact brute_force_nearest_first.
  - reflexivity.
  - vm_compute. reflexivity.
  - discriminate.
  - intros i [<-|[<-|[<-|[]]]]; reflexivity.
Defined.

(** ** Cleaning twice *)

Lemma to_numeric_coerce_idem (to_float : string -> option Qc) (c : cell) :
  to_numeric_coerce to_float (to_numeric_coerce to_float c)
  = to_numeric_coerce to_float c.
Proof. destruct c as [|x|s]; simpl; auto. now destruct (to_float s). Qed.

Lemma replace_country_idem (c : cell) :
  replace country_names (replace country_names c) = replace country_names c.
Proof.
  destruct c as [|x|s]; try reflexivity. rewrite replace_country_cases.
  destruct (String.eqb s "United States") eqn:E1; [reflexivity|].
  destruct (String.eqb s "United Kingdom") eqn:E2; [reflexivity|].
  now rewrite replace_country_cases, E1, E2.
Qed.

(** X18.  Lines 12-16: cleaning is repeatable on the rows it left with a
    number.  Cleaning a cleaned frame changes no row and drops exactly the
    rows whose rating the first pass coerced to NaN. *)
Theorem preprocess_twice (to_float : string -> option Qc) (raw : DataFrame) :
  preprocess to_float (preprocess to_float raw)
  = filter (fun r => notna (vote_average r)) (preprocess to_float raw).
Proof.
  rewrite (preprocess_map to_float raw), preprocess_map.
  assert (K : Forall (fun r0 => notna (genre r0) = true /\ notna (country r0) = true)
                     (dropna_subset raw)).
  { rewrite Forall_forall. intros r0 H. unfold dropna_subset in H.
    apply filter_In in H. destruct H as [_ H]. rewrite !andb_true_iff in H. tauto. }
  induction K as [|a l [Hg Hc] _ IH]; [reflexivity|].
  cbn [map]. unfold dropna_subset at 1. cbn [filter].
  fold (dropna_subset (map (clean to_float) l)).
  assert (Eg : notna (genre (clean to_float a)) = true) by exact Hg.
  assert (Ec : notna (country (clean to_float a)) = true)
    by (unfold clean; simpl; now rewrite replace_notna).
  rewrite Eg, Ec, !andb_true_r.
  destruct (notna (vote_average (clean to_float a))); [|exact IH].
  cbn [map]. rewrite IH. f_equal.
  unfold clean. simpl. now rewrite to_numeric_coerce_idem, replace_country_idem.
Qed.

(** ** Pages, routes and files *)

Lemma items_no_hrefs (l : list (cell * cell)) :
  flat_map hrefs (map rating_item l) = [].
Proof.
  induction l as [|e t IH]; simpl; [reflexivity|]. exact IH.
Qed.

Section PageFacts.
Variable to_float : string -> option Qc.
Variable draw_error : figure -> option exn.

(** X19.  Lines 67-91 with lines 41-57: every image a results page links to
    is a file that the request has just written, and the only link of the
    page leads back to the home page. *)
Theorem results_page_links_exist (form : list (string * string))
  (w w' : world) (body : html) :
  dispatch to_float draw_error (mkRequest POST "/analyze" form) w = (Page body, w') ->
  Forall (fun src => exists f, w' src = Some (ImageFile f)) (image_links body) /\
  length (image_links body) = 3%nat /\
  hrefs body = ["/"] /\
  (forall form0,
     dispatch to_float draw_error (mkRequest GET "/" form0) w' = (Page index_html, w')).
Proof.
  intros H. unfold dispatch in H. simpl in H.
  destruct (analyze to_float draw_error form w) as [b w1|e w1] eqn:A; [|discriminate].
  injection H as -> ->.
  destruct (analyze_returns _ _ _ _ _ _ A) as (table & gr & cr & p & _ & G & _ & ->).
  destruct (generate_plots_returns _ _ _ _ _ G) as (-> & _).
  rewrite results_html_images. split; [|split; [reflexivity|split]].
  - repeat constructor; eexists; reflexivity.
  - simpl. rewrite !items_no_hrefs. reflexivity.
  - reflexivity.
Qed.
End PageFacts.

Lemma results_page_links_exist_witness :
  exists body,
    fst (dispatch parse_decimal draws_all
           (mkRequest POST "/analyze" [("country", "UK")]) sample_world) = Page body /\
    hrefs body = ["/"].
Proof.
  destruct (dispatch parse_decimal draws_all
              (mkRequest POST "/analyze" [("country", "UK")]) sample_world)
    as [r w'] eqn:D.
  assert (R : exists body, r = Page body).
  { apply (f_equal fst) in D. simpl in D. rewrite <- D. eexists.
    vm_compute. reflexivity. }
  destruct R as [body ->]. exists body. split; [reflexivity|].
  exact (proj1 (proj2 (proj2
           (results_page_links_exist parse_decimal draws_all _ _ _ _ D)))).
Defined.

(** ** Filtering and grouping *)

Lemma filter_filter_same {A : Type} (p q : A -> bool) (l : list A) :
  (forall a, q a = true -> p a = true) -> filter p (filter q l) = filter q l.
Proof.
  intros H. induction l as [|a t IH]; simpl; [reflexivity|].
  destruct (q a) eqn:Q; [|exact IH]. simpl. now rewrite (H a Q), IH.
Qed.

Lemma filter_filter_none {A : Type} (p q : A -> bool) (l : list A) :
  (forall a, q a = true -> p a = false) -> filter p (filter q l) = [].
Proof.
  intros H. induction l as [|a t IH]; simpl; [reflexivity|].
  destruct (q a) eqn:Q; [|exact IH]. simpl. now rewrite (H a Q), IH.
Qed.

(** X20.  Lines 22 and 76-77: filtering by a genre and then grouping gives
    the entry that grouping alone gives to that genre, and nothing else: the
    genre table of a request for genre g has at most the entry of g, with
    the mean it has in the table of the whole frame. *)
Theorem genre_filter_keeps_one_entry
  (to_float : string -> option Qc) (raw : DataFrame) (g : string) (k : cell) :
  g <> "" ->
  assoc cell_eqb k
    (mean_by genre (filter_rows (Some g) None (preprocess to_float raw)))
  = if cell_eqb k (Str g)
    then assoc cell_eqb (Str g) (mean_by genre (preprocess to_float raw))
    else None.
Proof.
  intros N.
  assert (F : filter_rows (Some g) None (preprocess to_float raw)
              = filter (fun r => eq_str (genre r) g) (preprocess to_float raw)).
  { unfold filter_rows. simpl. apply String.eqb_neq in N. now rewrite N. }
  rewrite F.
  assert (Kg : Forall (fun r => notna (genre r) = true) (preprocess to_float raw)).
  { eapply Forall_impl; [|apply preprocess_keys]. now intros ? [? ?]. }
  rewrite !mean_by_lookup; try exact Kg.
  2:{ eapply Forall_incl; [|exact Kg]. intros r Hr. now apply filter_In in Hr. }
  rewrite !existsb_filter_nil.
  destruct (cell_eqb k (Str g)) eqn:E.
  - apply cell_eqb_eq in E. subst k.
    rewrite filter_filter_same; [|intros r Hr; apply eq_str_eq in Hr; rewrite Hr;
                                   apply (eqb_refl cell_eqb cell_eqb_eq)].
    erewrite (filter_ext (fun r => cell_eqb (Str g) (genre r))
                         (fun r => eq_str (genre r) g)); [reflexivity|].
    intros r. apply bool_eq_iff. rewrite cell_eqb_eq, eq_str_eq. split; congruence.
  - rewrite filter_filter_none; [reflexivity|].
    intros r Hr. apply eq_str_eq in Hr. rewrite Hr. exact E.
Qed.

Lemma genre_filter_keeps_one_entry_witness :
  assoc cell_eqb (Str "Drama")
    (mean_by genre (filter_rows (Some "Drama") None
                      (preprocess parse_decimal sample_table)))
  = assoc cell_eqb (Str "Drama") (mean_by genre (preprocess parse_decimal sample_table)).
Proof.
  rewrite (genre_filter_keeps_one_entry parse_decimal sample_table "Drama" (Str "Drama")).
  - reflexivity.
  - discriminate.
Defined.
